(** * Type-erased dispatch tables of [polymorphic.hpp]

    A shallow embedding of [metaprogrammed_polymorphism/polymorphic.hpp]:
    the synthesised dispatch table ([vtable_entry], [entries], [vtable_imp]),
    the borrowing handle [ref] and the two owning handles [object_imp]
    (exclusive and shared), together with the part of the C++ object model
    they rely on ([make_unique], [make_shared], [unique_ptr], [shared_ptr]).

    Template parameters (the pack [Signatures], the concrete type [T]) are
    ordinary arguments of the definitions; the run-time fields of a class are
    the fields of a record.  What the compiler decides (overload resolution,
    [static_assert]) is computed by functions into [option]; what happens at
    run time is a computation over an explicit store. *)

From Stdlib Require Import ZArith NArith List Lia Eqdep_dec.
From stdpp Require Import base decidable option list gmap strings.

(** ** Method tags and signatures *)

(** A method tag is an empty class used as a name.  [clone] is the tag of the
    library itself ([struct clone {}]); all others are supplied by the user. *)
Inductive Method :=
  | clone
  | method (name : string).

#[global] Instance Method_eq_dec : EqDecision Method.
Proof. solve_decision. Defined.

(** A signature is the function type [Return(Method, Parameters...)], possibly
    [const]-qualified.  Values are untyped here (integers, see [value]), so the
    model keeps the tag and the qualifier. *)
Record Signature := {
  sig_method : Method;
  sig_const : bool
}.

#[global] Instance Signature_eq_dec : EqDecision Signature.
Proof. solve_decision. Defined.

(** [using copyable = std::unique_ptr<detail::holder>(detail::clone) const] *)
Definition copyable : Signature :=
  {| sig_method := clone; sig_const := true |}.

(** [entries::all_const] : the conjunction of the entries' [is_const]. *)
Definition all_const (Signatures : list Signature) : bool :=
  forallb sig_const Signatures.

(** ** Overload resolution among the entries *)

(** The slots [I] of the entries [vtable_entry<I, Signatures>...] whose
    signature satisfies [P], counted from [i]. *)
Fixpoint slots_from (P : Signature -> bool) (i : nat)
    (Signatures : list Signature) : list nat :=
  match Signatures with
  | [] => []
  | s :: rest =>
      if P s then i :: slots_from P (S i) rest else slots_from P (S i) rest
  end.

Definition slots (P : Signature -> bool) (Signatures : list Signature) :=
  slots_from P 0 Signatures.

(** A call is well formed when exactly one candidate remains. *)
Definition unique_candidate (candidates : list nat) : option nat :=
  match candidates with
  | [i] => Some i
  | _ => None
  end.

(** [get_index(type<Signature>)] : every entry contributes the overload
    [get_index(type<its signature>)] returning its [I]; the argument type
    selects the entries with exactly that signature. *)
Definition get_index (Signatures : list Signature) (s : Signature)
    : option nat :=
  unique_candidate (slots (fun s' => bool_decide (s' = s)) Signatures).

(** [call_imp(vt, permutation, Method*, t, parameters...)] : an entry is
    viable when its tag is [Method] and [t] converts to its object parameter
    ([const void*] does not convert to [void*]); an entry whose object
    parameter has exactly the type of [t] is a better match than one that
    needs the qualification conversion.  Entries of one tag that differ in
    their parameter types only are not told apart. *)
Definition viable (m : Method) (t_const : bool) (s : Signature) : bool :=
  bool_decide (sig_method s = m) && implb t_const (sig_const s).

Definition exact (m : Method) (t_const : bool) (s : Signature) : bool :=
  bool_decide (sig_method s = m) && bool_decide (sig_const s = t_const).

Definition resolve_call_imp (Signatures : list Signature) (m : Method)
    (t_const : bool) : option nat :=
  match slots (exact m t_const) Signatures with
  | [] => unique_candidate (slots (viable m t_const) Signatures)
  | best => unique_candidate best
  end.

(** ** The index type *)

(** [using index_type = std::uint8_t] *)
Abbreviation index_type := N.
Definition index_type_bits : N := 8.

(** [std::numeric_limits<index_type>::max()] *)
Definition numeric_limits_max : N := (2 ^ index_type_bits - 1)%N.

(** Conversion of a [size_t] to [index_type] keeps the low eight bits. *)
Definition to_index_type (n : nat) : index_type :=
  (N.of_nat n mod 2 ^ index_type_bits)%N.

(** [static_assert(sizeof...(Signatures) <= numeric_limits<index_type>::max())] *)
Definition static_assert_capacity (Signatures : list Signature) : bool :=
  (N.of_nat (length Signatures) <=? numeric_limits_max)%N.

(** ** Values, addresses and the free functions of a concrete type *)

Abbreviation value := Z.
Abbreviation addr := positive.

(** A pointer is an address or [nullptr] ([None]). *)
Abbreviation pointer := (option addr).

(** The convention a concrete type [T] follows: for a tag [Method] it supplies
    [poly_extend(Method*, T&, Parameters...)] for the signatures without
    [const] (it may change the object) and
    [poly_extend(Method*, const T&, Parameters...)] for those with it. *)
Class PolyExtend (T : Type) := {
  poly_extend : string -> T -> list value -> value * T;
  poly_extend_const : string -> T -> list value -> value
}.

(** [struct holder { void *ptr; ~holder() {} }] *)
Record holder := { ptr : addr }.

(** What the control block of a [shared_ptr] runs when the last owner goes:
    [make_shared<holder_imp<T>>] destroys the complete [holder_imp<T>];
    a [shared_ptr] adopted from a [unique_ptr<holder>] deletes a [holder*]. *)
Inductive deleter :=
  | destroy_complete
  | delete_as_holder.

Record control_block := {
  use_count : nat;
  block_deleter : deleter
}.

(** The result of a call through a stub: an integer, or the
    [std::unique_ptr<holder>] returned for [clone]. *)
Inductive result :=
  | RVal (v : value)
  | RHolder (h : pointer).

(** The static local [vt] of one instantiation of [get_vtable]: there is one
    such array per concrete type and pack, and [vptr_] points at it. *)
Record static_array {tycode : Type} := {
  array_type : tycode;
  array_signatures : list Signature
}.
Arguments static_array : clear implicits.

(** [struct vtable_imp { const vtable_fun *vptr_; std::array<index_type, N> permutation_; }] *)
Record vtable_imp {tycode : Type} := {
  vptr_ : static_array tycode;
  permutation_ : list index_type
}.
Arguments vtable_imp : clear implicits.

Section Model.
Context {tycode : Type} `{EqDecision tycode}.
Context {denote : tycode -> Type} {impl : forall c, PolyExtend (denote c)}.

(** *** The store *)

(** An object in memory together with its dynamic type. *)
Local Abbreviation dyn := (sigT denote).

(** [objects] maps the address of a live object of a concrete type to it;
    [holders] the address of a live [holder_imp] to its base part;
    [blocks] the holders owned by [shared_ptr]s to their control block;
    [next] is the next fresh address; [destroyed] lists the objects whose
    destructor [~T()] has run and [released] the holders whose storage has
    been returned, latest first. *)
Record store := {
  objects : gmap addr dyn;
  holders : gmap addr holder;
  blocks : gmap addr control_block;
  next : addr;
  destroyed : list addr;
  released : list addr
}.

Definition empty_store : store :=
  {| objects := ∅; holders := ∅; blocks := ∅; next := 1%positive;
     destroyed := []; released := [] |}.

(** A step either returns, is rejected by the compiler, or has undefined
    behaviour. *)
Inductive outcome (A : Type) :=
  | Ok (a : A) (st : store)
  | IllFormed
  | Undefined.
Arguments Ok {A} a st.
Arguments IllFormed {A}.
Arguments Undefined {A}.

Definition M (A : Type) := store -> outcome A.

Definition ret {A} (a : A) : M A := fun st => Ok a st.

Definition bind {A B} (m : M A) (k : A -> M B) : M B := fun st =>
  match m st with
  | Ok a st' => k a st'
  | IllFormed => IllFormed
  | Undefined => Undefined
  end.

Definition ill_formed {A} : M A := fun _ => IllFormed.
Definition undefined {A} : M A := fun _ => Undefined.

(** An instantiation the compiler rejects. *)
Definition instantiate {A} (o : option A) : M A :=
  match o with
  | Some a => ret a
  | None => ill_formed
  end.

Notation "x <- m ;; k" := (bind m (fun x => k))
  (at level 100, m at next level, right associativity).

(** [*static_cast<T*>(t)] : defined when a [T] lives at [t]. *)
Definition static_cast (c : tycode) (d : dyn) : option (denote c) :=
  match decide (projT1 d = c) with
  | left e => Some (eq_rect (projT1 d) denote (projT2 d) c e)
  | right _ => None
  end.

Definition load (c : tycode) (t : pointer) : M (denote c) := fun st =>
  match t with
  | None => Undefined
  | Some a =>
      match objects st !! a with
      | Some d =>
          match static_cast c d with
          | Some x => Ok x st
          | None => Undefined
          end
      | None => Undefined
      end
  end.

Definition assign_object (a : addr) (d : dyn) (st : store) : store :=
  {| objects := <[a := d]> (objects st); holders := holders st;
     blocks := blocks st; next := next st;
     destroyed := destroyed st; released := released st |}.

Definition assign (c : tycode) (t : pointer) (x : denote c) : M unit :=
  fun st =>
    match t with
    | None => Undefined
    | Some a => Ok tt (assign_object a (existT c x) st)
    end.

(** *** Holders *)

(** [new holder_imp<T>(t)] : the holder is placed at the next fresh address
    and its member [t_] right after it; [ptr = &t_]. *)
Definition allocate_holder (c : tycode) (t : denote c) (st : store) : store :=
  {| objects := <[Pos.succ (next st) := existT c t]> (objects st);
     holders := <[next st := {| ptr := Pos.succ (next st) |}]> (holders st);
     blocks := blocks st;
     next := Pos.succ (Pos.succ (next st));
     destroyed := destroyed st; released := released st |}.

(** [std::make_unique<holder_imp<T>>(t)] *)
Definition make_unique_holder_imp (c : tycode) (t : denote c) : M pointer :=
  fun st => Ok (Some (next st)) (allocate_holder c t st).

(** [detail::poly_extend(clone*, const T&)] *)
Definition poly_extend_clone (c : tycode) (t : denote c) : M pointer :=
  make_unique_holder_imp c t.

Definition release_holder (run_dtor : bool) (h : addr) (hd : holder)
    (st : store) : store :=
  {| objects := delete (ptr hd) (objects st);
     holders := delete h (holders st);
     blocks := delete h (blocks st);
     next := next st;
     destroyed := if run_dtor then ptr hd :: destroyed st else destroyed st;
     released := h :: released st |}.

(** [delete p] for [p] of type [holder*], what [default_delete<holder>]
    does: the destructor named by the static type is [~holder()], which is
    not virtual and has an empty body, so the member [t_] of the
    [holder_imp<T>] is not destroyed; the storage is returned. *)
Definition delete_holder (h : addr) : M unit := fun st =>
  match holders st !! h with
  | Some hd => Ok tt (release_holder false h hd st)
  | None => Undefined
  end.

(** Destruction of the complete object, [~holder_imp<T>()] : the member
    [t_] is destroyed ([~T()] runs), then the base; the storage is
    returned. *)
Definition destroy_holder_imp (h : addr) : M unit := fun st =>
  match holders st !! h with
  | Some hd => Ok tt (release_holder true h hd st)
  | None => Undefined
  end.

(** [~unique_ptr<holder>()] *)
Definition unique_ptr_destroy (t : pointer) : M unit :=
  match t with
  | Some h => delete_holder h
  | None => ret tt
  end.

Definition set_block (h : addr) (b : control_block) (st : store) : store :=
  {| objects := objects st; holders := holders st;
     blocks := <[h := b]> (blocks st); next := next st;
     destroyed := destroyed st; released := released st |}.

(** [std::make_shared<holder_imp<T>>(t)] *)
Definition make_shared_holder_imp (c : tycode) (t : denote c) : M pointer :=
  fun st =>
    Ok (Some (next st))
       (set_block (next st)
          {| use_count := 1; block_deleter := destroy_complete |}
          (allocate_holder c t st)).

(** [shared_ptr<const holder>(unique_ptr<holder>&&)] *)
Definition shared_ptr_adopt (t : pointer) : M pointer := fun st =>
  match t with
  | Some h =>
      Ok (Some h)
         (set_block h {| use_count := 1; block_deleter := delete_as_holder |} st)
  | None => Ok None st
  end.

(** Copy of a [shared_ptr]: one more owner of the same holder. *)
Definition shared_ptr_copy (t : pointer) : M pointer := fun st =>
  match t with
  | Some h =>
      match blocks st !! h with
      | Some b =>
          Ok (Some h)
             (set_block h {| use_count := S (use_count b);
                             block_deleter := block_deleter b |} st)
      | None => Undefined
      end
  | None => Ok None st
  end.

(** [~shared_ptr()] : the last owner runs the deleter of the block. *)
Definition shared_ptr_destroy (t : pointer) : M unit := fun st =>
  match t with
  | Some h =>
      match blocks st !! h with
      | Some b =>
          match use_count b with
          | 0 => Undefined
          | 1 =>
              match block_deleter b with
              | destroy_complete => destroy_holder_imp h st
              | delete_as_holder => delete_holder h st
              end
          | S n =>
              Ok tt (set_block h {| use_count := n;
                                    block_deleter := block_deleter b |} st)
          end
      | None => Undefined
      end
  | None => Ok tt st
  end.

(** *** Table entries *)

(** [using vtable_fun = ptr<void()>] : a stub, called with the erased
    address and the parameters. *)
Local Abbreviation vtable_fun := (pointer -> list value -> M result).

(** [vtable_entry<I, Signature>::get_entry(type<T>)] : the stub casts the
    erased address back to [T*] (to [const T*] for a [const] signature) and
    forwards to [poly_extend] of the tag. *)
Definition get_entry (c : tycode) (s : Signature) : vtable_fun :=
  fun t parameters =>
    x <- load c t ;;
    match sig_method s with
    | clone =>
        h <- poly_extend_clone c x ;;
        ret (RHolder h)
    | method name =>
        if sig_const s then
          ret (RVal (poly_extend_const name x parameters))
        else
          _ <- assign c t (poly_extend name x parameters).2 ;;
          ret (RVal (poly_extend name x parameters).1)
    end.

(** [vtable_imp::get_vtable(type<T>)] : the address of the static array
    [vt] of this instantiation. *)
Definition get_vtable (Signatures : list Signature) (c : tycode)
    : static_array tycode :=
  {| array_type := c; array_signatures := Signatures |}.

(** The initialiser of that array:
    [{vtable_entry<I, Signatures>::get_entry(t)...}]. *)
Definition elements (vt : static_array tycode) : list vtable_fun :=
  get_entry (array_type vt) <$> array_signatures vt.

(** [vtable_entry<I, Signature>::call_imp] :
    [vt[permutation[I]](t, parameters...)]. *)
Definition call_imp (I : nat) (vt : static_array tycode)
    (permutation : list index_type) (t : pointer) (parameters : list value)
    : M result :=
  match permutation !! I with
  | Some p =>
      match elements vt !! N.to_nat p with
      | Some f => f t parameters
      | None => undefined
      end
  | None => undefined
  end.

(** *** The table *)

(** [vtable_imp(type<T>)] : [vptr_(get_vtable(t)), permutation_{I...}]. *)
Definition vtable_imp_from_type (Signatures : list Signature) (c : tycode)
    : option (vtable_imp tycode) :=
  if static_assert_capacity Signatures then
    Some {| vptr_ := get_vtable Signatures c;
            permutation_ := to_index_type <$> seq 0 (length Signatures) |}
  else None.

(** [vtable_imp(const vtable_imp<OtherSequence, OtherSignatures...>& other)] :
    [vptr_(other.vptr_)],
    [permutation_{other.permutation_[other.get_index(type<Signatures>{})]...}].
    The index is below [sizeof...(OtherSignatures)], the size of
    [other.permutation_]. *)
Definition vtable_imp_from_other (OtherSignatures Signatures : list Signature)
    (other : vtable_imp tycode) : option (vtable_imp tycode) :=
  if static_assert_capacity Signatures then
    indices ← mapM (get_index OtherSignatures) Signatures;
    Some {| vptr_ := vptr_ other;
            permutation_ :=
              (fun i => default 0%N (permutation_ other !! i)) <$> indices |}
  else None.

(** [vtable_imp::call] : overload resolution among the inherited
    [call_imp]s, then the call.  [t_const] tells whether [t] is a
    [const void*]. *)
Definition vtable_call (Signatures : list Signature) (vt : vtable_imp tycode)
    (t_const : bool) (m : Method) (t : pointer) (parameters : list value)
    : M result :=
  match resolve_call_imp Signatures m t_const with
  | Some slot => call_imp slot (vptr_ vt) (permutation_ vt) t parameters
  | None => ill_formed
  end.

(** *** Polymorphic arguments *)

(** What the constructors templated on [Poly] use of their argument
    [const Poly& other]: the pack of its table, [other.get_vtable()],
    [other.get_ptr()] with the constness of the pointer it returns,
    [bool(other)] and [other.call<Method>(...)]. *)
Record Poly := {
  poly_signatures : list Signature;
  poly_get_vtable : vtable_imp tycode;
  poly_ptr_const : bool;
  poly_get_ptr : M pointer;
  poly_bool : bool;
  poly_call : Method -> list value -> M result
}.

(** *** The borrowing handle [ref<Signatures...>] *)

(** [vtable_t vt_] and [t_], a [const void*] when [all_const()] and a
    [void*] otherwise. *)
Record ref := {
  ref_vt_ : vtable_imp tycode;
  ref_t_ : pointer
}.

(** [ref(T& t) : vt_(type<T>{}), t_(&t)] *)
Definition ref_from_value (Signatures : list Signature) (c : tycode) (a : addr)
    : M ref :=
  vt <- instantiate (vtable_imp_from_type Signatures c) ;;
  ret {| ref_vt_ := vt; ref_t_ := Some a |}.

(** [ref(const Poly& other) : vt_(other.get_vtable()), t_(other.get_ptr())] ;
    a [const void*] does not initialise a [void*]. *)
Definition ref_from_poly (Signatures : list Signature) (other : Poly) : M ref :=
  vt <- instantiate (vtable_imp_from_other (poly_signatures other) Signatures
                       (poly_get_vtable other)) ;;
  if implb (poly_ptr_const other) (all_const Signatures) then
    t <- poly_get_ptr other ;;
    ret {| ref_vt_ := vt; ref_t_ := t |}
  else ill_formed.

(** [explicit operator bool() const { return t_ != nullptr; }] *)
Definition ref_bool (r : ref) : bool := bool_decide (ref_t_ r <> None).

(** [ref::get_ptr] *)
Definition ref_get_ptr (r : ref) : M pointer := ret (ref_t_ r).

(** [ref::call<Method>(parameters...)] *)
Definition ref_call (Signatures : list Signature) (r : ref) (m : Method)
    (parameters : list value) : M result :=
  vtable_call Signatures (ref_vt_ r) (all_const Signatures) m (ref_t_ r)
    parameters.

Definition ref_as_poly (Signatures : list Signature) (r : ref) : Poly :=
  {| poly_signatures := Signatures;
     poly_get_vtable := ref_vt_ r;
     poly_ptr_const := all_const Signatures;
     poly_get_ptr := ref_get_ptr r;
     poly_bool := ref_bool r;
     poly_call := ref_call Signatures r |}.

(** *** The exclusive owner [object_imp<false, Signatures...>] *)

(** [vtable_t vt_] and [std::unique_ptr<holder> t_]. *)
Record object_imp := {
  object_vt_ : vtable_imp tycode;
  object_t_ : pointer
}.

(** [get_ptr() { return t_ ? t_->ptr : nullptr; }] *)
Definition object_get_ptr (o : object_imp) : M pointer := fun st =>
  match object_t_ o with
  | Some h =>
      match holders st !! h with
      | Some hd => Ok (Some (ptr hd)) st
      | None => Undefined
      end
  | None => Ok None st
  end.

Definition object_bool (o : object_imp) : bool :=
  bool_decide (object_t_ o <> None).

(** The two overloads of [call<Method>]: on a [const] handle [get_ptr()] is
    a [const void*]. *)
Definition object_call (Signatures : list Signature) (on_const : bool)
    (o : object_imp) (m : Method) (parameters : list value) : M result :=
  t <- object_get_ptr o ;;
  vtable_call Signatures (object_vt_ o) on_const m t parameters.

(** The value of [other.call<detail::clone>()] initialises a
    [unique_ptr<holder>]. *)
Definition as_unique_ptr (r : result) : M pointer :=
  match r with
  | RHolder h => ret h
  | RVal _ => ill_formed
  end.

(** [object_imp(T t) : vt_(type<T>{}),
     t_(std::make_unique<holder_imp<T>>(std::move(t)))] *)
Definition object_imp_from_value (Signatures : list Signature) (c : tycode)
    (t : denote c) : M object_imp :=
  vt <- instantiate (vtable_imp_from_type Signatures c) ;;
  h <- make_unique_holder_imp c t ;;
  ret {| object_vt_ := vt; object_t_ := h |}.

(** [object_imp(const Poly& other) : vt_(other.get_vtable()),
     t_(other ? other.template call<detail::clone>() : nullptr)] *)
Definition object_imp_from_poly (Signatures : list Signature) (other : Poly)
    : M object_imp :=
  vt <- instantiate (vtable_imp_from_other (poly_signatures other) Signatures
                       (poly_get_vtable other)) ;;
  h <- (if poly_bool other then
          r <- poly_call other clone [] ;; as_unique_ptr r
        else ret None) ;;
  ret {| object_vt_ := vt; object_t_ := h |}.

(** [object_imp(const object_imp& other) : vt_{other.get_vtable()},
     t_(other ? other.call<detail::clone>() : nullptr)] *)
Definition object_imp_copy (Signatures : list Signature) (other : object_imp)
    : M object_imp :=
  h <- (if object_bool other then
          r <- object_call Signatures true other clone [] ;; as_unique_ptr r
        else ret None) ;;
  ret {| object_vt_ := object_vt_ other; object_t_ := h |}.

(** [object_imp(object_imp&&) = default] : the new handle, and what is left
    of the argument. *)
Definition object_imp_move (other : object_imp) : object_imp * object_imp :=
  (other, {| object_vt_ := object_vt_ other; object_t_ := None |}).

(** The implicit destructor: [~unique_ptr<holder>()]. *)
Definition object_imp_destroy (o : object_imp) : M unit :=
  unique_ptr_destroy (object_t_ o).

Definition object_as_poly (Signatures : list Signature) (o : object_imp)
    : Poly :=
  {| poly_signatures := Signatures;
     poly_get_vtable := object_vt_ o;
     poly_ptr_const := true;
     poly_get_ptr := object_get_ptr o;
     poly_bool := object_bool o;
     poly_call := object_call Signatures true o |}.

(** [object_imp& operator=(const object_imp& other) { *this = ref(other); }] :
    [ref(other)] names no pack and none can be deduced from [other], so the
    temporary is a [ref<>]; to be assigned it is converted by
    [object_imp(const Poly&)]; then comes the assignment of that temporary
    ([assign_temporary]: the defaulted [operator=(object_imp&&)] is deleted,
    the member [vt_] being [const], so the model leaves open which operator
    runs); control finally reaches the end of the body, which has no
    [return]. *)
Definition object_copy_assign (Signatures : list Signature)
    (assign_temporary : object_imp -> object_imp -> M object_imp)
    (this other : object_imp) : M object_imp :=
  r <- ref_from_poly [] (object_as_poly Signatures other) ;;
  tmp <- object_imp_from_poly Signatures (ref_as_poly [] r) ;;
  _ <- assign_temporary this tmp ;;
  undefined.

(** *** The shared owner [object_imp<true, Signatures...>] *)

(** [vtable_t vt_] and [std::shared_ptr<const holder> t_]. *)
Record shared_object_imp := {
  shared_vt_ : vtable_imp tycode;
  shared_t_ : pointer
}.

(** [get_ptr() const { return t_ ? t_->ptr : nullptr; }] *)
Definition shared_get_ptr (o : shared_object_imp) : M pointer := fun st =>
  match shared_t_ o with
  | Some h =>
      match holders st !! h with
      | Some hd => Ok (Some (ptr hd)) st
      | None => Undefined
      end
  | None => Ok None st
  end.

Definition shared_bool (o : shared_object_imp) : bool :=
  bool_decide (shared_t_ o <> None).

Definition shared_call (Signatures : list Signature) (o : shared_object_imp)
    (m : Method) (parameters : list value) : M result :=
  t <- shared_get_ptr o ;;
  vtable_call Signatures (shared_vt_ o) true m t parameters.

(** [object_imp(T t) : vt_(type<T>{}),
     t_(std::make_shared<holder_imp<T>>(std::move(t)))] *)
Definition shared_from_value (Signatures : list Signature) (c : tycode)
    (t : denote c) : M shared_object_imp :=
  vt <- instantiate (vtable_imp_from_type Signatures c) ;;
  h <- make_shared_holder_imp c t ;;
  ret {| shared_vt_ := vt; shared_t_ := h |}.

(** [object_imp(const Poly& other) : vt_(other.get_vtable()),
     t_(other ? other.template call<detail::clone>() : nullptr)] *)
Definition shared_from_poly (Signatures : list Signature) (other : Poly)
    : M shared_object_imp :=
  vt <- instantiate (vtable_imp_from_other (poly_signatures other) Signatures
                       (poly_get_vtable other)) ;;
  u <- (if poly_bool other then
          r <- poly_call other clone [] ;; as_unique_ptr r
        else ret None) ;;
  h <- shared_ptr_adopt u ;;
  ret {| shared_vt_ := vt; shared_t_ := h |}.

(** The member initialisers of
    [object_imp(const object_imp<true, OtherSignatures...>& other)] :
    [vt_(other.get_vtable()), t_(other.t_)]. *)
Definition shared_from_shared_initialisers
    (OtherSignatures Signatures : list Signature) (other : shared_object_imp)
    : M shared_object_imp :=
  vt <- instantiate (vtable_imp_from_other OtherSignatures Signatures
                       (shared_vt_ other)) ;;
  h <- shared_ptr_copy (shared_t_ other) ;;
  ret {| shared_vt_ := vt; shared_t_ := h |}.

(** [t_] is declared before [public:] and the class declares no friend, so
    a member of [object_imp<true, Signatures...>] may name [other.t_] only
    when [other] is of that very class. *)
Definition t_accessible (OtherSignatures Signatures : list Signature) : bool :=
  bool_decide (OtherSignatures = Signatures).

(** [object_imp(const object_imp<true, OtherSignatures...>& other)] : for an
    argument that is a shared owner this constructor is more specialised
    than [object_imp(const Poly&)], and is the one selected. *)
Definition shared_from_shared (OtherSignatures Signatures : list Signature)
    (other : shared_object_imp) : M shared_object_imp :=
  if t_accessible OtherSignatures Signatures then
    shared_from_shared_initialisers OtherSignatures Signatures other
  else ill_formed.

(** [object_imp(const object_imp&) = default] *)
Definition shared_copy (other : shared_object_imp) : M shared_object_imp :=
  h <- shared_ptr_copy (shared_t_ other) ;;
  ret {| shared_vt_ := shared_vt_ other; shared_t_ := h |}.

(** The implicit destructor: [~shared_ptr<const holder>()]. *)
Definition shared_destroy (o : shared_object_imp) : M unit :=
  shared_ptr_destroy (shared_t_ o).

(** [object<Signatures...>] is
    [object_imp<vtable<Signatures...>::all_const(), Signatures..., copyable>]. *)
Definition object_pack (Signatures : list Signature) : list Signature :=
  Signatures ++ [copyable].

(** *** Vocabulary of the properties *)

(** The free function of signature [s], tag [name], called directly on the
    object [t] of the concrete type [c] that lives at [a]: the [const]
    overload returns its value; the other one also leaves the object as it
    changed it. *)
Definition direct_call (c : tycode) (s : Signature) (name : string) (a : addr)
    (t : denote c) (parameters : list value) : M result := fun st =>
  if sig_const s then Ok (RVal (poly_extend_const name t parameters)) st
  else
    Ok (RVal (poly_extend name t parameters).1)
       (assign_object a (existT c (poly_extend name t parameters).2) st).

(** Every slot the pack declares leads, through the permutation, to the stub
    of its signature for the concrete type [c]. *)
Definition table_for (c : tycode) (Signatures : list Signature)
    (vt : vtable_imp tycode) : Prop :=
  forall i s, Signatures !! i = Some s ->
    exists p, permutation_ vt !! i = Some p /\
              elements (vptr_ vt) !! N.to_nat p = Some (get_entry c s).

(** A [shared_ptr] is null or has a control block with at least one owner. *)
Definition shared_ptr_valid (t : pointer) (st : store) : Prop :=
  match t with
  | Some h => exists b, blocks st !! h = Some b /\ 0 < use_count b
  | None => True
  end.

(** The number of owners the control block of [t] counts. *)
Definition owners (t : pointer) (st : store) : nat :=
  match t with
  | Some h => from_option use_count 0 (blocks st !! h)
  | None => 0
  end.

(** Nothing lives at or above the next fresh address. *)
Definition fresh (st : store) : Prop :=
  forall a, (next st <= a)%positive ->
    objects st !! a = None /\ holders st !! a = None.

End Model.

Arguments store {tycode} denote.
Arguments outcome {tycode} denote A.
Arguments M {tycode} denote A.
Arguments Poly {tycode} denote.
Arguments empty_store {tycode} denote.
Arguments Ok {tycode denote A} a st.
Arguments IllFormed {tycode denote A}.
Arguments Undefined {tycode denote A}.

Notation "x <- m ;; k" := (bind m (fun x => k))
  (at level 100, m at next level, right associativity).

(** ** Sample concrete types *)

(** [Circle] draws as the literal 7; [Counter] holds a count that [bump]
    increments and [peek] reads; [Lamp] answers [draw] differently through a
    [const] reference. *)
Inductive sample := Circle | Counter | Lamp.

#[global] Instance sample_eq_dec : EqDecision sample.
Proof. solve_decision. Defined.

Definition sample_type (c : sample) : Type :=
  match c with
  | Circle => unit
  | Counter => Z
  | Lamp => unit
  end.

#[global] Instance sample_impl (c : sample) : PolyExtend (sample_type c) :=
  match c with
  | Circle =>
      {| poly_extend := fun _ t _ => (7%Z, t);
         poly_extend_const := fun _ _ _ => 7%Z |}
  | Counter =>
      {| poly_extend := fun _ (n : Z) _ => ((n + 1)%Z, (n + 1)%Z);
         poly_extend_const := fun _ (n : Z) _ => n |}
  | Lamp =>
      {| poly_extend := fun _ t _ => (1%Z, t);
         poly_extend_const := fun _ _ _ => 2%Z |}
  end.

Definition draw : Signature :=
  {| sig_method := method "draw"; sig_const := false |}.
Definition draw_const : Signature :=
  {| sig_method := method "draw"; sig_const := true |}.
Definition bump : Signature :=
  {| sig_method := method "bump"; sig_const := false |}.
Definition peek : Signature :=
  {| sig_method := method "peek"; sig_const := true |}.

(** The packs used below. *)
Definition counter_pack : list Signature := [bump; peek].
Definition view_pack : list Signature := [draw_const; peek].
Definition swapped_view_pack : list Signature := [peek; draw_const].
Definition owner_pack : list Signature := object_pack [bump; peek].

(** 256 signatures with pairwise distinct one-letter tags. *)
Definition byte_pack : list Signature :=
  (fun n => {| sig_method := method (String (Ascii.ascii_of_nat n) EmptyString);
               sig_const := true |}) <$> seq 0 256.

(** The table of a pack as [vtable_imp(type<T>)] fills it when accepted. *)
Definition direct_table (Signatures : list Signature) (c : sample)
    : vtable_imp sample :=
  {| vptr_ := {| array_type := c; array_signatures := Signatures |};
     permutation_ := to_index_type <$> seq 0 (length Signatures) |}.

(** A store in which a [Counter] of count 5 lives at address 1. *)
Definition counter_store : store sample_type :=
  {| objects := {[ 1%positive := existT (P := sample_type) Counter 5%Z ]};
     holders := ∅; blocks := ∅; next := 2%positive;
     destroyed := []; released := [] |}.

Definition counter_ref : ref :=
  {| ref_vt_ := direct_table counter_pack Counter; ref_t_ := Some 1%positive |}.

(** The store after an exclusive owner was built from a [Counter] of count 5
    in the empty store, and that owner. *)
Definition owner_store : store sample_type :=
  allocate_holder (denote := sample_type) Counter 5%Z (empty_store sample_type).

Definition counter_owner : object_imp :=
  {| object_vt_ := direct_table owner_pack Counter;
     object_t_ := Some 1%positive |}.

(** The store after a shared owner was built from a [Circle] in the empty
    store, and that owner. *)
Definition shared_store : store sample_type :=
  set_block 1%positive {| use_count := 1; block_deleter := destroy_complete |}
    (allocate_holder (denote := sample_type) Circle tt (empty_store sample_type)).

Definition circle_shared : shared_object_imp :=
  {| shared_vt_ := direct_table view_pack Circle;
     shared_t_ := Some 1%positive |}.

Definition swapped_counter_pack : list Signature := [peek; bump].

(** The table [direct_table view_pack Circle] seen through
    [swapped_view_pack]. *)
Definition swapped_table : vtable_imp sample :=
  {| vptr_ := {| array_type := Circle; array_signatures := view_pack |};
     permutation_ := [1%N; 0%N] |}.

(** The table [direct_table counter_pack Counter] seen through
    [swapped_counter_pack]. *)
Definition swapped_counter_table : vtable_imp sample :=
  {| vptr_ := {| array_type := Counter; array_signatures := counter_pack |};
     permutation_ := [1%N; 0%N] |}.

(** A [ref] to the [Counter] of [counter_store] whose pack also declares
    [copyable], as an owner can be built from it. *)
Definition cloning_ref : ref :=
  {| ref_vt_ := direct_table owner_pack Counter; ref_t_ := Some 1%positive |}.

(** The table of [counter_owner] seen through the pack [[peek]], and the
    [ref] with that pack borrowed from [counter_owner] in [owner_store]. *)
Definition peek_table : vtable_imp sample :=
  {| vptr_ := {| array_type := Counter; array_signatures := owner_pack |};
     permutation_ := [1%N] |}.

Definition peek_ref : ref :=
  {| ref_vt_ := peek_table; ref_t_ := Some 2%positive |}.

(** The table of [counter_owner] seen through [counter_pack], and that one
    seen through [swapped_counter_pack]. *)
Definition owner_as_counter_table : vtable_imp sample :=
  {| vptr_ := {| array_type := Counter; array_signatures := owner_pack |};
     permutation_ := [0%N; 1%N] |}.

Definition owner_as_swapped_table : vtable_imp sample :=
  {| vptr_ := {| array_type := Counter; array_signatures := owner_pack |};
     permutation_ := [1%N; 0%N] |}.





(** * Properties *)

(** ** Overload resolution *)

Lemma slots_from_spec (P : Signature -> bool) (Signatures : list Signature)
    (k i : nat) :
  i ∈ slots_from P k Signatures <->
  exists j s, i = k + j /\ Signatures !! j = Some s /\ P s = true.
Proof.
  revert k. induction Signatures as [|x rest IH]; intros k; simpl.
  - split; [intros Hin; inversion Hin | intros (j & s & _ & Hl & _); discriminate].
  - destruct (P x) eqn:HP.
    + rewrite elem_of_cons, IH. split.
      * intros [-> | (j & s & -> & Hl & Hs)].
        -- exists 0, x. repeat split; first [done | lia].
        -- exists (S j), s. repeat split; first [done | lia].
      * intros (j & s & -> & Hl & Hs). destruct j as [|j]; simpl in Hl.
        -- left. lia.
        -- right. exists j, s. repeat split; first [done | lia].
    + rewrite IH. split.
      * intros (j & s & -> & Hl & Hs). exists (S j), s.
        repeat split; first [done | lia].
      * intros (j & s & -> & Hl & Hs). destruct j as [|j]; simpl in Hl.
        -- congruence.
        -- exists j, s. repeat split; first [done | lia].
Qed.

Lemma slots_from_none (P : Signature -> bool) (Signatures : list Signature)
    (k : nat) :
  (forall s, s ∈ Signatures -> P s = false) -> slots_from P k Signatures = [].
Proof.
  revert k. induction Signatures as [|x rest IH]; intros k Hall; simpl; [done|].
  rewrite (Hall x) by (left). apply IH. intros s Hs. apply Hall. by right.
Qed.

Lemma slots_from_ext (P Q : Signature -> bool) (Signatures : list Signature)
    (k : nat) :
  (forall s, s ∈ Signatures -> P s = Q s) ->
  slots_from P k Signatures = slots_from Q k Signatures.
Proof.
  revert k. induction Signatures as [|x rest IH]; intros k Hall; simpl; [done|].
  rewrite (Hall x) by (left).
  rewrite (IH (S k)) by (intros s Hs; apply Hall; by right). done.
Qed.

Lemma slots_from_unique (P : Signature -> bool) (Signatures : list Signature)
    (s : Signature) (k i : nat) :
  Signatures !! i = Some s -> P s = true ->
  (forall j s', Signatures !! j = Some s' -> P s' = true -> j = i) ->
  slots_from P k Signatures = [k + i].
Proof.
  revert k i. induction Signatures as [|x rest IH]; intros k i Hl HP Hu; [done|].
  simpl. destruct i as [|i]; simpl in Hl.
  - injection Hl as ->. rewrite HP, slots_from_none; [f_equal; lia|].
    intros s' Hs'. destruct (P s') eqn:HP'; [|done].
    apply list_elem_of_lookup_1 in Hs' as [j Hj].
    specialize (Hu (S j) s' Hj HP'). discriminate.
  - destruct (P x) eqn:HPx.
    + specialize (Hu 0 x eq_refl HPx). discriminate.
    + rewrite (IH (S k) i Hl HP); [f_equal; lia|].
      intros j s' Hj HP'. specialize (Hu (S j) s' Hj HP'). lia.
Qed.

Lemma unique_candidate_Some (l : list nat) (i : nat) :
  unique_candidate l = Some i -> l = [i].
Proof. destruct l as [|a [|b l]]; simpl; congruence. Qed.

Lemma slots_selected (P : Signature -> bool) (Signatures : list Signature)
    (i : nat) :
  unique_candidate (slots P Signatures) = Some i ->
  exists s, Signatures !! i = Some s /\ P s = true.
Proof.
  intros Hu. apply unique_candidate_Some in Hu.
  assert (Hin : i ∈ slots_from P 0 Signatures)
    by (unfold slots in Hu; rewrite Hu; left).
  apply slots_from_spec in Hin as (j & s & -> & Hl & Hs). eauto.
Qed.

(** A signature that occurs once is found by [get_index] at its slot. *)
Lemma slots_from_NoDup (Signatures : list Signature) (s : Signature)
    (k i : nat) :
  NoDup Signatures -> Signatures !! i = Some s ->
  slots_from (fun s' => bool_decide (s' = s)) k Signatures = [k + i].
Proof.
  revert k i. induction Signatures as [|x rest IH]; intros k i Hnd Hl; [done|].
  apply NoDup_cons in Hnd as [Hx Hnd]. simpl.
  destruct i as [|i]; simpl in Hl.
  - injection Hl as ->. rewrite bool_decide_eq_true_2 by done.
    rewrite slots_from_none; [f_equal; lia|].
    intros s' Hs'. apply bool_decide_eq_false_2. congruence.
  - rewrite bool_decide_eq_false_2.
    + rewrite (IH (S k) i Hnd Hl). f_equal. lia.
    + intros ->. apply Hx. by eapply list_elem_of_lookup_2.
Qed.

Lemma get_index_Some (Signatures : list Signature) (s : Signature) (i : nat) :
  get_index Signatures s = Some i -> Signatures !! i = Some s.
Proof.
  intros Hg. apply slots_selected in Hg as (s' & Hl & Hs).
  apply bool_decide_eq_true_1 in Hs. congruence.
Qed.

Lemma get_index_NoDup (Signatures : list Signature) (s : Signature) (i : nat) :
  NoDup Signatures -> Signatures !! i = Some s ->
  get_index Signatures s = Some i.
Proof.
  intros Hnd Hl. unfold get_index, slots.
  by rewrite (slots_from_NoDup Signatures s 0 i Hnd Hl).
Qed.

(** The entry a call resolves to carries the tag of the call. *)
Lemma resolve_call_imp_Some (Signatures : list Signature) (m : Method)
    (t_const : bool) (i : nat) :
  resolve_call_imp Signatures m t_const = Some i ->
  exists s, Signatures !! i = Some s /\ sig_method s = m.
Proof.
  unfold resolve_call_imp. intros Hr.
  assert (Hs : exists s, Signatures !! i = Some s /\
             (exact m t_const s = true \/ viable m t_const s = true)).
  { destruct (slots (exact m t_const) Signatures) as [|a l] eqn:He.
    - apply slots_selected in Hr as (s & Hl & Hv). eauto.
    - rewrite <- He in Hr. apply slots_selected in Hr as (s & Hl & Hv). eauto. }
  destruct Hs as (s & Hl & Hs). exists s. split; [done|].
  unfold exact, viable in Hs.
  destruct Hs as [Hs | Hs]; apply andb_true_iff in Hs as [Hs _];
    by apply bool_decide_eq_true_1 in Hs.
Qed.

(** In a pack that declares every tag once, a call with the tag of a
    declared signature selects that signature, provided the pointer converts
    to its object parameter. *)
Lemma resolve_call_imp_unique_tag (Signatures : list Signature) (s : Signature)
    (t_const : bool) (i : nat) :
  NoDup (sig_method <$> Signatures) -> Signatures !! i = Some s ->
  implb t_const (sig_const s) = true ->
  resolve_call_imp Signatures (sig_method s) t_const = Some i.
Proof.
  intros Hnd Hl Hconv.
  assert (Hu : forall j s', Signatures !! j = Some s' ->
                 sig_method s' = sig_method s -> j = i /\ s' = s).
  { intros j s' Hj Hm.
    assert (j = i) as ->; [|split; congruence].
    eapply (NoDup_lookup _ _ _ _ Hnd).
    - by rewrite list_lookup_fmap, Hj.
    - by rewrite list_lookup_fmap, Hl, Hm. }
  assert (Hv : slots_from (viable (sig_method s) t_const) 0 Signatures = [i]).
  { apply (slots_from_unique _ _ s 0 i Hl).
    - unfold viable. by rewrite bool_decide_eq_true_2, Hconv.
    - intros j s' Hj HP. unfold viable in HP.
      apply andb_true_iff in HP as [HP _].
      apply bool_decide_eq_true_1 in HP. by apply (Hu j s'). }
  unfold resolve_call_imp, slots.
  destruct (decide (sig_const s = t_const)) as [Heq | Hne].
  - rewrite (slots_from_unique (exact (sig_method s) t_const) _ s 0 i Hl);
      [done | |].
    + unfold exact. by rewrite !bool_decide_eq_true_2.
    + intros j s' Hj HP. unfold exact in HP.
      apply andb_true_iff in HP as [HP _].
      apply bool_decide_eq_true_1 in HP. by apply (Hu j s').
  - rewrite (slots_from_none (exact (sig_method s) t_const));
      [by rewrite Hv|].
    intros s' Hs'. unfold exact.
    destruct (decide (sig_method s' = sig_method s)) as [Hm | Hm].
    + apply list_elem_of_lookup_1 in Hs' as [j Hj].
      destruct (Hu j s' Hj Hm) as [_ ->].
      rewrite (bool_decide_eq_false_2 (sig_const s = t_const)) by done.
      apply andb_false_r.
    + by rewrite (bool_decide_eq_false_2 (sig_method s' = sig_method s)).
Qed.

(** On a pack of [const] signatures a [void*] and a [const void*] select the
    same entry: a handle's own pointer type and a non-const call agree. *)
Lemma resolve_call_imp_all_const (Signatures : list Signature) (m : Method) :
  resolve_call_imp Signatures m (all_const Signatures) =
  resolve_call_imp Signatures m false.
Proof.
  destruct (all_const Signatures) eqn:Hall; [|done].
  unfold all_const in Hall. rewrite forallb_forall in Hall.
  assert (Hc : forall s, s ∈ Signatures -> sig_const s = true)
    by (intros s Hs; apply Hall; by apply list_elem_of_In).
  unfold resolve_call_imp, slots.
  rewrite (slots_from_none (exact m false)).
  2:{ intros s Hs. unfold exact. rewrite (Hc s Hs).
      rewrite (bool_decide_eq_false_2 (true = false)) by done.
      apply andb_false_r. }
  rewrite (slots_from_ext (viable m true) (exact m true)).
  2:{ intros s Hs. unfold viable, exact. by rewrite (Hc s Hs). }
  rewrite (slots_from_ext (viable m false) (exact m true)).
  2:{ intros s Hs. unfold viable, exact. by rewrite (Hc s Hs). }
  by destruct (slots_from (exact m true) 0 Signatures).
Qed.

(** ** The index type *)

Lemma static_assert_capacity_spec (Signatures : list Signature) :
  static_assert_capacity Signatures = true <-> length Signatures <= 255.
Proof.
  unfold static_assert_capacity, numeric_limits_max, index_type_bits.
  rewrite N.leb_le. change (2 ^ 8 - 1)%N with 255%N. lia.
Qed.

Lemma to_index_type_small (n : nat) :
  n <= 255 -> to_index_type n = N.of_nat n.
Proof.
  intros Hn. unfold to_index_type, index_type_bits.
  change (2 ^ 8)%N with 256%N. apply N.mod_small. lia.
Qed.

Section Properties.
Context {tycode : Type} `{EqDecision tycode}.
Context {denote : tycode -> Type} {impl : forall c, PolyExtend (denote c)}.

Local Abbreviation store := (store denote).
Local Abbreviation M := (M denote).

(** ** Tables built from a concrete type *)

Lemma static_cast_existT (c : tycode) (x : denote c) :
  static_cast c (existT c x) = Some x.
Proof.
  unfold static_cast. simpl. destruct (decide (c = c)) as [e | n]; [|done].
  by rewrite (UIP_dec EqDecision0 e eq_refl).
Qed.

Lemma identity_permutation_lookup (n i : nat) :
  n <= 255 -> i < n ->
  (to_index_type <$> seq 0 n) !! i = Some (N.of_nat i).
Proof.
  intros Hn Hi. rewrite list_lookup_fmap, lookup_seq_lt by done. simpl.
  f_equal. apply to_index_type_small. lia.
Qed.

Lemma elements_get_vtable (Signatures : list Signature) (c : tycode) (i : nat) :
  elements (denote := denote) (get_vtable Signatures c) !! i =
  get_entry c <$> Signatures !! i.
Proof. unfold elements. simpl. apply list_lookup_fmap. Qed.

(** C9: a table constructed directly from a concrete type has the identity
    permutation: it has one entry per signature of the pack, and the entry
    at [i] is [i]. *)
Theorem vtable_imp_from_type_identity (Signatures : list Signature)
    (c : tycode) (vt : vtable_imp tycode) :
  vtable_imp_from_type Signatures c = Some vt ->
  length (permutation_ vt) = length Signatures /\
  forall i, i < length Signatures -> permutation_ vt !! i = Some (N.of_nat i).
Proof.
  unfold vtable_imp_from_type.
  destruct (static_assert_capacity Signatures) eqn:Hcap; [|discriminate].
  apply static_assert_capacity_spec in Hcap. intros [= <-]. simpl. split.
  - by rewrite length_fmap, length_seq.
  - intros i Hi. by apply identity_permutation_lookup.
Qed.

(** C6 (as the code has it): a table is accepted exactly when its pack has
    at most 255 signatures, the largest value of the 8-bit index type; with
    256 or more the [static_assert] of [vtable_imp] fails, whether the table
    is built from a concrete type or converted from another table. *)
Theorem vtable_imp_capacity (Signatures : list Signature) (c : tycode) :
  (is_Some (vtable_imp_from_type Signatures c) <-> length Signatures <= 255) /\
  (forall OtherSignatures (other : vtable_imp tycode),
     is_Some (vtable_imp_from_other OtherSignatures Signatures other) ->
     length Signatures <= 255).
Proof.
  unfold vtable_imp_from_type, vtable_imp_from_other.
  destruct (static_assert_capacity Signatures) eqn:Hcap.
  - apply static_assert_capacity_spec in Hcap. split; [split; eauto|done].
  - assert (Hn : ~ length Signatures <= 255).
    { rewrite <- static_assert_capacity_spec. congruence. }
    split; [split|].
    + intros [vt Hvt]. discriminate.
    + intros Hle. by destruct Hn.
    + intros ? ? [vt Hvt]. discriminate.
Qed.

(** ** Conversion of a table *)

Lemma vtable_imp_from_other_Some (OtherSignatures Signatures : list Signature)
    (other vt : vtable_imp tycode) :
  vtable_imp_from_other OtherSignatures Signatures other = Some vt ->
  exists indices,
    mapM (get_index OtherSignatures) Signatures = Some indices /\
    vt = {| vptr_ := vptr_ other;
            permutation_ :=
              (fun i => default 0%N (permutation_ other !! i)) <$> indices |}.
Proof.
  unfold vtable_imp_from_other.
  destruct (static_assert_capacity Signatures); [|discriminate].
  destruct (mapM (get_index OtherSignatures) Signatures) as [indices|];
    simpl; [|discriminate].
  intros [= <-]. eauto.
Qed.

(** C10: a table converted from another table points at the same static
    array of stubs as its source, hence at the same stubs; the conversion
    computes a new permutation, of one entry per signature of the new pack,
    and nothing else. *)
Theorem vtable_imp_from_other_vptr (OtherSignatures Signatures : list Signature)
    (other vt : vtable_imp tycode) :
  vtable_imp_from_other OtherSignatures Signatures other = Some vt ->
  vptr_ vt = vptr_ other /\
  elements (denote := denote) (vptr_ vt) = elements (vptr_ other) /\
  length (permutation_ vt) = length Signatures.
Proof.
  intros Hc. apply vtable_imp_from_other_Some in Hc as (indices & Hm & ->).
  simpl. repeat split. rewrite length_fmap.
  apply length_mapM in Hm. done.
Qed.

Lemma table_for_from_type (Signatures : list Signature) (c : tycode)
    (vt : vtable_imp tycode) :
  vtable_imp_from_type Signatures c = Some vt ->
  table_for (denote := denote) c Signatures vt.
Proof.
  unfold vtable_imp_from_type. intros Hvt i s Hl.
  destruct (static_assert_capacity Signatures) eqn:Hcap; [|discriminate].
  apply static_assert_capacity_spec in Hcap. injection Hvt as <-.
  exists (N.of_nat i). simpl. split.
  - apply identity_permutation_lookup; [done|]. by eapply lookup_lt_Some.
  - by rewrite Nat2N.id, elements_get_vtable, Hl.
Qed.

Lemma vtable_call_table_for (c : tycode) (Signatures : list Signature)
    (vt : vtable_imp tycode) (t_const : bool) (m : Method) (i : nat)
    (s : Signature) (t : pointer) (parameters : list value) (st : store) :
  table_for (denote := denote) c Signatures vt ->
  resolve_call_imp Signatures m t_const = Some i ->
  Signatures !! i = Some s ->
  vtable_call Signatures vt t_const m t parameters st =
  get_entry c s t parameters st.
Proof.
  intros Htab Hr Hl. unfold vtable_call, call_imp. rewrite Hr.
  destruct (Htab i s Hl) as (p & Hp & Hf). rewrite Hp.
  by rewrite Hf.
Qed.

Lemma get_entry_method (c : tycode) (s : Signature) (name : string) (a : addr)
    (t : denote c) (parameters : list value) (st : store) :
  objects st !! a = Some (existT c t) ->
  sig_method s = method name ->
  get_entry c s (Some a) parameters st = direct_call c s name a t parameters st.
Proof.
  intros Ha Hm. unfold get_entry, direct_call, bind, load. cbv beta iota.
  rewrite Ha, static_cast_existT, Hm. by destruct (sig_const s).
Qed.

Lemma lookup_allocate_holder (c : tycode) (t : denote c) (st : store) :
  holders (allocate_holder c t st) !! next st
    = Some {| ptr := Pos.succ (next st) |} /\
  objects (allocate_holder c t st) !! Pos.succ (next st) = Some (existT c t).
Proof. simpl. by rewrite !lookup_insert_eq. Qed.

(** C2: a handle built over a value [t] of a concrete type, called with a
    method of its pack, does what the free function of the selected
    signature does when called directly on the object: this holds for a
    [ref] to [t], for an exclusive [object_imp] holding [t], and, when all
    signatures are [const], for a shared [object_imp] holding [t]. *)
Theorem handle_call_is_direct_call (Signatures : list Signature) (c : tycode)
    (t : denote c) (name : string) (parameters : list value) (i : nat)
    (s : Signature) (a : addr) (st : store) :
  static_assert_capacity Signatures = true ->
  resolve_call_imp Signatures (method name) (all_const Signatures) = Some i ->
  Signatures !! i = Some s ->
  objects st !! a = Some (existT c t) ->
  (exists r,
     ref_from_value Signatures c a st = Ok r st /\
     ref_call Signatures r (method name) parameters st =
     direct_call c s name a t parameters st) /\
  (exists o st1 p,
     object_imp_from_value Signatures c t st = Ok o st1 /\
     object_get_ptr o st1 = Ok (Some p) st1 /\
     object_call Signatures false o (method name) parameters st1 =
     direct_call c s name p t parameters st1) /\
  (all_const Signatures = true ->
   exists o st1 p,
     shared_from_value Signatures c t st = Ok o st1 /\
     shared_get_ptr o st1 = Ok (Some p) st1 /\
     shared_call Signatures o (method name) parameters st1 =
     direct_call c s name p t parameters st1).
Proof.
  intros Hcap Hr Hl Ha.
  destruct (resolve_call_imp_Some _ _ _ _ Hr) as (s' & Hl' & Hm).
  assert (s' = s) as -> by congruence.
  assert (Hvt : vtable_imp_from_type Signatures c =
                Some {| vptr_ := get_vtable Signatures c;
                        permutation_ :=
                          to_index_type <$> seq 0 (length Signatures) |})
    by (unfold vtable_imp_from_type; by rewrite Hcap).
  pose proof (table_for_from_type _ _ _ Hvt) as Htab.
  destruct (lookup_allocate_holder c t st) as [Hh Ho].
  split; [|split].
  - eexists. unfold ref_from_value, bind. rewrite Hvt. simpl.
    split; [reflexivity|]. unfold ref_call. simpl.
    rewrite (vtable_call_table_for c _ _ _ _ i s) by done.
    by apply get_entry_method.
  - eexists _, _, _. unfold object_imp_from_value, bind. rewrite Hvt. simpl.
    split; [reflexivity|]. unfold object_call, object_get_ptr, bind. simpl.
    rewrite lookup_insert_eq. split; [reflexivity|].
    rewrite (vtable_call_table_for c _ _ _ _ i s);
      [| done | by rewrite <- resolve_call_imp_all_const | done].
    by apply get_entry_method.
  - intros Hall. rewrite Hall in Hr.
    eexists _, _, _. unfold shared_from_value, bind. rewrite Hvt. simpl.
    split; [reflexivity|]. unfold shared_call, shared_get_ptr, bind. simpl.
    rewrite lookup_insert_eq. split; [reflexivity|].
    rewrite (vtable_call_table_for c _ _ _ _ i s) by done.
    by apply get_entry_method.
Qed.

(** ** Conversion between packs *)

Lemma all_const_submseteq (OtherSignatures Signatures : list Signature) :
  Signatures ⊆+ OtherSignatures ->
  all_const OtherSignatures = true -> all_const Signatures = true.
Proof.
  unfold all_const. rewrite !forallb_forall. intros Hsub Hall s Hs.
  apply Hall, list_elem_of_In. eapply elem_of_submseteq; [|exact Hsub].
  by apply list_elem_of_In.
Qed.

(** The permutation rebuild: every signature of the new pack is found in the
    source's pack, and the new entry is the source's entry at that slot. *)
Lemma vtable_imp_from_other_permutation
    (OtherSignatures Signatures : list Signature) (other : vtable_imp tycode) :
  NoDup OtherSignatures -> Signatures ⊆+ OtherSignatures ->
  static_assert_capacity OtherSignatures = true ->
  length (permutation_ other) = length OtherSignatures ->
  exists vt,
    vtable_imp_from_other OtherSignatures Signatures other = Some vt /\
    vptr_ vt = vptr_ other /\
    forall k s, Signatures !! k = Some s ->
      exists i, get_index OtherSignatures s = Some i /\
                OtherSignatures !! i = Some s /\
                permutation_ vt !! k = permutation_ other !! i.
Proof.
  intros Hnd Hsub Hcap Hlen.
  assert (Hall : Forall (is_Some ∘ get_index OtherSignatures) Signatures).
  { apply Forall_forall. intros s Hs. simpl.
    apply (elem_of_submseteq _ _ _ Hs) in Hsub.
    apply list_elem_of_lookup_1 in Hsub as [i Hi].
    exists i. by apply get_index_NoDup. }
  apply mapM_is_Some_2 in Hall as [indices Hm].
  assert (Hcap' : static_assert_capacity Signatures = true).
  { apply static_assert_capacity_spec. apply static_assert_capacity_spec in Hcap.
    apply submseteq_length in Hsub. lia. }
  eexists. unfold vtable_imp_from_other. rewrite Hcap', Hm. simpl.
  split; [reflexivity|]. split; [reflexivity|].
  intros k s Hk. apply mapM_Some_1 in Hm.
  destruct (Forall2_lookup_l _ _ _ _ _ Hm Hk) as (i & Hi & Hg).
  exists i. pose proof (get_index_Some _ _ _ Hg) as Hs.
  repeat split; [done..|]. simpl.
  rewrite list_lookup_fmap, Hi. simpl.
  destruct (lookup_lt_is_Some_2 (permutation_ other) i) as [p Hp].
  { rewrite Hlen. by eapply lookup_lt_Some. }
  by rewrite Hp.
Qed.

(** A converted table serves the concrete type its source serves. *)
Lemma table_for_from_other (c : tycode)
    (OtherSignatures Signatures : list Signature)
    (other vt : vtable_imp tycode) :
  vtable_imp_from_other OtherSignatures Signatures other = Some vt ->
  table_for (denote := denote) c OtherSignatures other ->
  table_for (denote := denote) c Signatures vt.
Proof.
  intros Hc Htab k s Hk.
  apply vtable_imp_from_other_Some in Hc as (indices & Hm & ->).
  apply mapM_Some_1 in Hm.
  destruct (Forall2_lookup_l _ _ _ _ _ Hm Hk) as (i & Hi & Hg).
  apply get_index_Some in Hg. destruct (Htab i s Hg) as (p & Hp & Hf).
  exists p. simpl. split; [|done].
  rewrite list_lookup_fmap, Hi. simpl. by rewrite Hp.
Qed.

(** Through a table converted from the table of a concrete type, a call
    still reaches the free function of the selected signature. *)
Lemma converted_table_call (c : tycode)
    (OtherSignatures Signatures : list Signature)
    (other vt : vtable_imp tycode) (t_const : bool) (name : string) (j : nat)
    (s : Signature) (a : addr) (t : denote c) (parameters : list value)
    (st : store) :
  vtable_imp_from_type OtherSignatures c = Some other ->
  vtable_imp_from_other OtherSignatures Signatures other = Some vt ->
  objects st !! a = Some (existT c t) ->
  resolve_call_imp Signatures (method name) t_const = Some j ->
  Signatures !! j = Some s ->
  vtable_call Signatures vt t_const (method name) (Some a) parameters st =
  direct_call c s name a t parameters st.
Proof.
  intros Ho Hc Ha Hr Hl.
  destruct (resolve_call_imp_Some _ _ _ _ Hr) as (s' & Hl' & Hm).
  assert (s' = s) as -> by congruence.
  rewrite (vtable_call_table_for c _ _ _ _ j s); [| |done..].
  - by apply get_entry_method.
  - eapply table_for_from_other; [exact Hc|]. by apply table_for_from_type.
Qed.

(** When the call selects the same signature in both packs, the converted
    handle and its source run the same stub, whatever the slots of that
    signature in the two packs. *)
Lemma ref_from_ref_dispatch_resolved (OtherSignatures Signatures : list Signature)
    (other : ref) (m : Method) (i j : nat) (s : Signature)
    (parameters : list value) (st : store) :
  NoDup OtherSignatures -> Signatures ⊆+ OtherSignatures ->
  static_assert_capacity OtherSignatures = true ->
  length (permutation_ (ref_vt_ other)) = length OtherSignatures ->
  resolve_call_imp Signatures m (all_const Signatures) = Some j ->
  Signatures !! j = Some s ->
  resolve_call_imp OtherSignatures m (all_const OtherSignatures) = Some i ->
  OtherSignatures !! i = Some s ->
  exists r,
    ref_from_poly Signatures (ref_as_poly OtherSignatures other) st = Ok r st /\
    ref_t_ r = ref_t_ other /\
    (forall k s', Signatures !! k = Some s' ->
       exists i', get_index OtherSignatures s' = Some i' /\
                  permutation_ (ref_vt_ r) !! k =
                  permutation_ (ref_vt_ other) !! i') /\
    ref_call Signatures r m parameters st =
    ref_call OtherSignatures other m parameters st.
Proof.
  intros Hnd Hsub Hcap Hlen Hj Hsj Hi Hsi.
  destruct (vtable_imp_from_other_permutation _ _ (ref_vt_ other)
              Hnd Hsub Hcap Hlen) as (vt & Hvt & Hvptr & Hperm).
  assert (Hptr : implb (all_const OtherSignatures) (all_const Signatures) = true).
  { destruct (all_const OtherSignatures) eqn:Hall; [|done].
    by rewrite (all_const_submseteq _ _ Hsub Hall). }
  exists {| ref_vt_ := vt; ref_t_ := ref_t_ other |}.
  unfold ref_from_poly, bind. simpl. rewrite Hvt. simpl. rewrite Hptr.
  split; [reflexivity|]. split; [reflexivity|]. split.
  - intros k s' Hk. destruct (Hperm k s' Hk) as (i' & Hg & _ & Hp). eauto.
  - unfold ref_call, vtable_call, call_imp. simpl. rewrite Hj, Hi, Hvptr.
    destruct (Hperm j s Hsj) as (i' & Hg & _ & Hp).
    rewrite (get_index_NoDup _ _ _ Hnd Hsi) in Hg. injection Hg as <-.
    by rewrite Hp.
Qed.


Lemma NoDup_of_submseteq {A : Type} (l1 l2 : list A) :
  l1 ⊆+ l2 -> NoDup l2 -> NoDup l1.
Proof.
  intros Hsub Hnd. apply submseteq_sublist_l in Hsub as (l & Hsl & Hp).
  apply (sublist_NoDup l1 l); [|exact Hsl]. by rewrite Hp.
Qed.

Lemma all_const_lookup (Signatures : list Signature) (i : nat) (s : Signature) :
  Signatures !! i = Some s ->
  implb (all_const Signatures) (sig_const s) = true.
Proof.
  intros Hl. destruct (all_const Signatures) eqn:Hall; [|done]. simpl.
  unfold all_const in Hall. rewrite forallb_forall in Hall.
  apply Hall, list_elem_of_In. by eapply list_elem_of_lookup_2.
Qed.

(** When the source's pack declares each method tag once, the condition of
    the theorem above holds for every method of the new pack: the call is
    well formed on both handles, selects the same signature, and does
    through the new handle exactly what it does through the source. *)
Corollary ref_from_ref_dispatch (OtherSignatures Signatures : list Signature)
    (other : ref) (j : nat) (s : Signature) (parameters : list value)
    (st : store) :
  NoDup (sig_method <$> OtherSignatures) ->
  Signatures ⊆+ OtherSignatures ->
  static_assert_capacity OtherSignatures = true ->
  length (permutation_ (ref_vt_ other)) = length OtherSignatures ->
  Signatures !! j = Some s ->
  exists r i,
    ref_from_poly Signatures (ref_as_poly OtherSignatures other) st = Ok r st /\
    ref_t_ r = ref_t_ other /\
    (forall k s', Signatures !! k = Some s' ->
       exists i', get_index OtherSignatures s' = Some i' /\
                  permutation_ (ref_vt_ r) !! k =
                  permutation_ (ref_vt_ other) !! i') /\
    OtherSignatures !! i = Some s /\
    resolve_call_imp Signatures (sig_method s) (all_const Signatures)
      = Some j /\
    resolve_call_imp OtherSignatures (sig_method s) (all_const OtherSignatures)
      = Some i /\
    ref_call Signatures r (sig_method s) parameters st =
    ref_call OtherSignatures other (sig_method s) parameters st.
Proof.
  intros Htags Hsub Hcap Hlen Hj.
  assert (Hnd : NoDup OtherSignatures) by (by eapply NoDup_fmap_1).
  assert (Htags' : NoDup (sig_method <$> Signatures)).
  { eapply NoDup_of_submseteq; [|exact Htags]. by apply fmap_submseteq. }
  assert (Hin : s ∈ OtherSignatures).
  { eapply elem_of_submseteq; [|exact Hsub]. by eapply list_elem_of_lookup_2. }
  apply list_elem_of_lookup_1 in Hin as [i Hi].
  pose proof (resolve_call_imp_unique_tag _ _ _ _ Htags' Hj
                (all_const_lookup _ _ _ Hj)) as Hrj.
  pose proof (resolve_call_imp_unique_tag _ _ _ _ Htags Hi
                (all_const_lookup _ _ _ Hi)) as Hri.
  destruct (ref_from_ref_dispatch_resolved OtherSignatures Signatures other
              (sig_method s) i j s parameters st
              Hnd Hsub Hcap Hlen Hrj Hj Hri Hi)
    as (r & Hr & Ht & Hperm & Hcall).
  exists r, i. repeat split; done.
Qed.


(** ** Shared owners *)

Lemma shared_ptr_copy_spec (t : pointer) (st : store) :
  shared_ptr_valid (denote := denote) t st ->
  exists st',
    shared_ptr_copy t st = Ok t st' /\
    objects st' = objects st /\ holders st' = holders st /\
    next st' = next st /\ destroyed st' = destroyed st /\
    released st' = released st /\
    (t <> None -> owners t st' = S (owners t st)).
Proof.
  destruct t as [h|]; simpl.
  - intros (b & Hb & _). rewrite Hb. eexists. split; [reflexivity|].
    simpl. repeat split. intros _. by rewrite lookup_insert_eq.
  - intros _. exists st. by repeat split.
Qed.

Lemma shared_get_ptr_frame (o o' : shared_object_imp) (st st' : store)
    (p : pointer) :
  shared_t_ o' = shared_t_ o -> holders st' = holders st ->
  shared_get_ptr o st = Ok p st -> shared_get_ptr o' st' = Ok p st'.
Proof.
  unfold shared_get_ptr. intros -> ->.
  destruct (shared_t_ o) as [h|]; [|by intros [= <-]].
  destruct (holders st !! h); [|done]. by intros [= <-].
Qed.

(** A shared owner built from a value is a handle the next theorem applies
    to: its control block has one owner and its holder is live. *)
Lemma shared_from_value_valid (Signatures : list Signature) (c : tycode)
    (v : denote c) (st : store) :
  static_assert_capacity Signatures = true ->
  exists o st',
    shared_from_value Signatures c v st = Ok o st' /\
    shared_ptr_valid (shared_t_ o) st' /\
    owners (shared_t_ o) st' = 1 /\
    shared_get_ptr o st' = Ok (Some (Pos.succ (next st))) st'.
Proof.
  intros Hcap. eexists _, _.
  unfold shared_from_value, vtable_imp_from_type, bind. rewrite Hcap. simpl.
  split; [reflexivity|]. unfold shared_get_ptr. simpl.
  rewrite !lookup_insert_eq. repeat split.
  eexists. split; [reflexivity|]. simpl. lia.
Qed.

(** C8: the copy of a shared owner holds the same holder as its source, so
    both report the same erased address; the copy allocates nothing and
    clones nothing: the only change to the store is one more owner in the
    control block. *)
Theorem shared_copy_shares (other : shared_object_imp) (p : pointer)
    (st : store) :
  shared_ptr_valid (shared_t_ other) st ->
  shared_get_ptr other st = Ok p st ->
  exists o st',
    shared_copy other st = Ok o st' /\
    shared_t_ o = shared_t_ other /\
    shared_vt_ o = shared_vt_ other /\
    shared_get_ptr o st' = Ok p st' /\
    shared_get_ptr other st' = Ok p st' /\
    objects st' = objects st /\ holders st' = holders st /\
    next st' = next st /\
    (shared_bool other = true ->
     owners (shared_t_ other) st' = S (owners (shared_t_ other) st)).
Proof.
  intros Hv Hp.
  destruct (shared_ptr_copy_spec _ _ Hv)
    as (st' & Hc & Ho & Hh & Hn & _ & _ & Hu).
  exists {| shared_vt_ := shared_vt_ other; shared_t_ := shared_t_ other |}, st'.
  unfold shared_copy, bind. rewrite Hc. simpl.
  repeat split; try done.
  - by apply (shared_get_ptr_frame other _ st st').
  - by apply (shared_get_ptr_frame other _ st st').
  - intros Hb. apply Hu. unfold shared_bool in Hb.
    by apply bool_decide_eq_true_1 in Hb.
Qed.

(** What the initialisers of the constructor from another shared owner do,
    taken alone: the table is the source's converted as for any table (same
    static array, permutation entries looked up by signature) and the new
    handle holds the very holder of the source: both report the same erased
    address, nothing is allocated or cloned, and the control block counts
    one more owner. *)
Lemma shared_from_shared_initialisers_share
    (OtherSignatures Signatures : list Signature)
    (other : shared_object_imp) (p : pointer) (st : store) :
  NoDup OtherSignatures -> Signatures ⊆+ OtherSignatures ->
  static_assert_capacity OtherSignatures = true ->
  length (permutation_ (shared_vt_ other)) = length OtherSignatures ->
  shared_ptr_valid (shared_t_ other) st ->
  shared_get_ptr other st = Ok p st ->
  exists o st',
    shared_from_shared_initialisers OtherSignatures Signatures other st
      = Ok o st' /\
    shared_t_ o = shared_t_ other /\
    vptr_ (shared_vt_ o) = vptr_ (shared_vt_ other) /\
    (forall k s, Signatures !! k = Some s ->
       exists i, get_index OtherSignatures s = Some i /\
                 permutation_ (shared_vt_ o) !! k =
                 permutation_ (shared_vt_ other) !! i) /\
    shared_get_ptr o st' = Ok p st' /\
    shared_get_ptr other st' = Ok p st' /\
    objects st' = objects st /\ holders st' = holders st /\
    next st' = next st /\
    (shared_bool other = true ->
     owners (shared_t_ other) st' = S (owners (shared_t_ other) st)).
Proof.
  intros Hnd Hsub Hcap Hlen Hv Hp.
  destruct (vtable_imp_from_other_permutation _ _ (shared_vt_ other)
              Hnd Hsub Hcap Hlen) as (vt & Hvt & Hvptr & Hperm).
  destruct (shared_ptr_copy_spec _ _ Hv)
    as (st' & Hc & Ho & Hh & Hn & _ & _ & Hu).
  exists {| shared_vt_ := vt; shared_t_ := shared_t_ other |}, st'.
  unfold shared_from_shared_initialisers, bind. rewrite Hvt. simpl. rewrite Hc.
  repeat split; try done.
  - intros k s Hk. destruct (Hperm k s Hk) as (i & Hg & _ & Hpi). eauto.
  - by apply (shared_get_ptr_frame other _ st st').
  - by apply (shared_get_ptr_frame other _ st st').
  - intros Hb. apply Hu. unfold shared_bool in Hb.
    by apply bool_decide_eq_true_1 in Hb.
Qed.

(** ** Exclusive owners *)

Lemma fresh_distinct (st : store) (h p : addr) (hd : holder)
    (d : sigT denote) :
  fresh st -> holders st !! h = Some hd -> objects st !! p = Some d ->
  h <> next st /\ p <> Pos.succ (next st).
Proof.
  intros Hf Hh Ho. split; intros ->.
  - destruct (Hf (next st)) as [_ Hn]; [lia|]. congruence.
  - destruct (Hf (Pos.succ (next st))) as [Hn _]; [lia|]. congruence.
Qed.

Lemma object_call_table_for (c : tycode) (Signatures : list Signature)
    (o : object_imp) (on_const : bool) (name : string) (i : nat)
    (s : Signature) (h p : addr) (v : denote c) (parameters : list value)
    (st : store) :
  table_for c Signatures (object_vt_ o) ->
  object_t_ o = Some h -> holders st !! h = Some {| ptr := p |} ->
  objects st !! p = Some (existT c v) ->
  resolve_call_imp Signatures (method name) on_const = Some i ->
  Signatures !! i = Some s ->
  object_call Signatures on_const o (method name) parameters st =
  direct_call c s name p v parameters st.
Proof.
  intros Htab Ht Hh Ho Hr Hl.
  destruct (resolve_call_imp_Some _ _ _ _ Hr) as (s' & Hl' & Hm).
  assert (s' = s) as -> by congruence.
  unfold object_call, object_get_ptr, bind. rewrite Ht, Hh. simpl.
  rewrite (vtable_call_table_for c _ _ _ _ i s) by done.
  by apply get_entry_method.
Qed.

(** An exclusive owner built from a value is a handle the next theorem
    applies to: its table serves the concrete type, its holder and the value
    are live, and the allocator is still fresh. *)
Lemma object_imp_from_value_valid (Signatures : list Signature) (c : tycode)
    (v : denote c) (st : store) :
  static_assert_capacity Signatures = true -> fresh st ->
  exists o st',
    object_imp_from_value Signatures c v st = Ok o st' /\
    table_for c Signatures (object_vt_ o) /\
    object_t_ o = Some (next st) /\
    holders st' !! next st = Some {| ptr := Pos.succ (next st) |} /\
    objects st' !! Pos.succ (next st) = Some (existT c v) /\
    fresh st'.
Proof.
  intros Hcap Hf.
  assert (Hvt : vtable_imp_from_type Signatures c =
                Some {| vptr_ := get_vtable Signatures c;
                        permutation_ :=
                          to_index_type <$> seq 0 (length Signatures) |})
    by (unfold vtable_imp_from_type; by rewrite Hcap).
  destruct (lookup_allocate_holder c v st) as [Hh Ho].
  eexists _, _. unfold object_imp_from_value, bind. rewrite Hvt. simpl.
  split; [reflexivity|]. simpl. split; [by apply table_for_from_type|].
  split; [done|]. rewrite !lookup_insert_eq. split; [done|]. split; [done|].
  intros a Ha. simpl in *. destruct (Hf a) as [Hoa Hha]; [lia|].
  rewrite !lookup_insert_ne by lia. done.
Qed.

(** C7: the copy of a non-empty exclusive owner owns a new holder with a
    copy of the value at a new address; before any mutation a call through
    the copy returns what the same call through the source returns, and a
    call through the copy, mutating or not, leaves the source's value as it
    was; the copy of an empty owner is empty. *)
Theorem object_imp_copy_is_deep (Signatures : list Signature) (c : tycode)
    (v : denote c) (other : object_imp) (h p : addr) (k : nat) (st : store) :
  table_for c Signatures (object_vt_ other) ->
  object_t_ other = Some h ->
  holders st !! h = Some {| ptr := p |} ->
  objects st !! p = Some (existT c v) ->
  fresh st ->
  resolve_call_imp Signatures clone true = Some k ->
  (exists o st' p',
     object_imp_copy Signatures other st = Ok o st' /\
     object_bool o = true /\
     object_vt_ o = object_vt_ other /\
     object_get_ptr o st' = Ok (Some p') st' /\
     object_get_ptr other st' = Ok (Some p) st' /\
     p' <> p /\
     objects st' !! p' = Some (existT c v) /\
     objects st' !! p = Some (existT c v) /\
     forall name on_const i s parameters,
       resolve_call_imp Signatures (method name) on_const = Some i ->
       Signatures !! i = Some s ->
       exists r st1 st2,
         object_call Signatures on_const other (method name) parameters st'
           = Ok r st1 /\
         object_call Signatures on_const o (method name) parameters st'
           = Ok r st2 /\
         objects st2 !! p = Some (existT c v) /\
         objects st2 !! p' =
           Some (existT c (if sig_const s then v
                           else (poly_extend name v parameters).2))) /\
  (forall vt st0,
     object_imp_copy Signatures {| object_vt_ := vt; object_t_ := None |} st0
     = Ok {| object_vt_ := vt; object_t_ := None |} st0).
Proof.
  intros Htab Ht Hh Ho Hf Hk. split; [|done].
  destruct (resolve_call_imp_Some _ _ _ _ Hk) as (sk & Hsk & Hmk).
  destruct (fresh_distinct st h p _ _ Hf Hh Ho) as [Hne_h Hne_p].
  set (st' := allocate_holder c v st).
  set (o := {| object_vt_ := object_vt_ other; object_t_ := Some (next st) |}).
  assert (Hh' : holders st' !! h = Some {| ptr := p |})
    by (simpl; by rewrite lookup_insert_ne).
  assert (Ho' : objects st' !! p = Some (existT c v))
    by (simpl; by rewrite lookup_insert_ne).
  destruct (lookup_allocate_holder c v st) as [Hnh Hno].
  exists o, st', (Pos.succ (next st)).
  split.
  { unfold object_imp_copy, object_bool, bind. rewrite Ht.
    rewrite bool_decide_eq_true_2 by done.
    unfold object_call, object_get_ptr, bind. rewrite Ht, Hh.
    rewrite (vtable_call_table_for c _ _ _ _ k sk) by done.
    unfold get_entry, bind, load. cbn [ptr].
    rewrite Ho, static_cast_existT, Hmk. reflexivity. }
  split; [done|]. split; [done|].
  split; [unfold object_get_ptr; simpl; by rewrite lookup_insert_eq|].
  split; [unfold object_get_ptr; by rewrite Ht, Hh'|].
  split; [done|]. split; [done|]. split; [done|].
  intros name on_const i s parameters Hr Hl.
  rewrite (object_call_table_for c _ other _ _ i s h p v) by done.
  rewrite (object_call_table_for c _ o _ _ i s (next st) (Pos.succ (next st)) v)
    by done.
  unfold direct_call. destruct (sig_const s).
  - eexists _, _, _. repeat split; done.
  - eexists _, _, _. split; [reflexivity|]. split; [reflexivity|].
    simpl. rewrite lookup_insert_eq.
    by rewrite lookup_insert_ne, lookup_insert_ne.
Qed.

(** C3 (what the code does): destroying an exclusive owner built from a
    value returns the holder's storage once but never runs the destructor
    of the held value, because [unique_ptr<holder>] deletes through
    [holder*] and [~holder()] is not virtual; the shared owner built from a
    value, whose control block destroys the complete [holder_imp<T>], does
    run it once. *)
Theorem object_imp_destroy_skips_destructor (Signatures : list Signature)
    (c : tycode) (v : denote c) (st : store) :
  match (o <- object_imp_from_value Signatures c v ;;
         object_imp_destroy o) st with
  | Ok _ st' =>
      destroyed st' = destroyed st /\ released st' = next st :: released st
  | IllFormed => static_assert_capacity Signatures = false
  | Undefined => False
  end /\
  match (o <- shared_from_value Signatures c v ;; shared_destroy o) st with
  | Ok _ st' =>
      destroyed st' = Pos.succ (next st) :: destroyed st /\
      released st' = next st :: released st
  | IllFormed => static_assert_capacity Signatures = false
  | Undefined => False
  end.
Proof.
  unfold object_imp_from_value, shared_from_value, vtable_imp_from_type, bind.
  destruct (static_assert_capacity Signatures); simpl; [|done].
  unfold object_imp_destroy, shared_destroy, unique_ptr_destroy,
    shared_ptr_destroy, delete_holder, destroy_holder_imp. simpl.
  rewrite !lookup_insert_eq. simpl. done.
Qed.

(** C4 (what the code does): copy assignment of an exclusive owner is never
    carried out.  [ref(other)] is a [ref<>], whose empty table declares none
    of the signatures the owner's table looks up, so the conversion back is
    rejected for every non-empty pack (and an owner's pack always holds
    [copyable]); the result is the same whether or not the two operands are
    the same handle. *)
Theorem object_copy_assign_rejected (s : Signature)
    (Signatures : list Signature)
    (assign_temporary : object_imp -> object_imp -> M object_imp)
    (this other : object_imp) (st : store) :
  object_copy_assign (s :: Signatures) assign_temporary this other st =
  match object_get_ptr other st with
  | Ok _ _ => IllFormed
  | IllFormed => IllFormed
  | Undefined => Undefined
  end.
Proof.
  unfold object_copy_assign, ref_from_poly, bind. simpl.
  destruct (object_get_ptr other st) as [t st'| |]; [|done..].
  unfold object_imp_from_poly, vtable_imp_from_other, bind. simpl.
  by destruct (static_assert_capacity (s :: Signatures)).
Qed.

(** C5 (what the code does): the constructor of a shared owner from a shared
    owner with another pack reads the private member [t_] of a different
    class, so it is rejected whenever the two packs differ; no handle is
    built. *)
Theorem shared_from_shared_inaccessible
    (OtherSignatures Signatures : list Signature) (other : shared_object_imp)
    (st : store) :
  OtherSignatures = Signatures \/
  shared_from_shared OtherSignatures Signatures other st = IllFormed.
Proof.
  unfold shared_from_shared, t_accessible.
  destruct (decide (OtherSignatures = Signatures)) as [Heq | Hne];
    [by left | right].
  by rewrite bool_decide_eq_false_2.
Qed.

End Properties.

(** * Instances on the sample types *)

Lemma fresh_empty_store {tycode : Type} (denote : tycode -> Type) :
  fresh (empty_store denote).
Proof. intros a _. simpl. by rewrite !lookup_empty. Qed.

Lemma fresh_allocate_holder {tycode : Type} {denote : tycode -> Type}
    (c : tycode) (t : denote c) (st : store denote) :
  fresh st -> fresh (allocate_holder c t st).
Proof.
  intros Hf a Ha. simpl in *. destruct (Hf a) as [Ho Hh]; [lia|].
  rewrite !lookup_insert_ne by lia. done.
Qed.

Lemma vtable_imp_from_type_identity_witness :
  vtable_imp_from_type view_pack Circle = Some (direct_table view_pack Circle) /\
  length (permutation_ (direct_table view_pack Circle)) = length view_pack /\
  forall i, i < length view_pack ->
    permutation_ (direct_table view_pack Circle) !! i = Some (N.of_nat i).
Proof.
  split; [reflexivity|].
  apply (vtable_imp_from_type_identity view_pack Circle). reflexivity.
Defined.

(** C6, as stated, fails: a pack of 256 signatures is within the claimed
    limit, and the table is rejected. *)
Lemma vtable_imp_rejects_256 :
  length byte_pack = 256 /\ NoDup byte_pack /\
  vtable_imp_from_type byte_pack Circle = None.
Proof.
  split; [reflexivity|]. split; [|reflexivity].
  apply (bool_decide_unpack _). vm_compute. exact I.
Qed.

Lemma vtable_imp_from_other_vptr_witness :
  vtable_imp_from_other view_pack swapped_view_pack
    (direct_table view_pack Circle) = Some swapped_table /\
  vptr_ swapped_table = vptr_ (direct_table view_pack Circle) /\
  elements (denote := sample_type) (vptr_ swapped_table) =
    elements (vptr_ (direct_table view_pack Circle)) /\
  length (permutation_ swapped_table) = length swapped_view_pack.
Proof.
  split; [reflexivity|].
  apply (vtable_imp_from_other_vptr view_pack swapped_view_pack
           (direct_table view_pack Circle) swapped_table).
  reflexivity.
Defined.

Lemma handle_call_is_direct_call_witness :
  static_assert_capacity counter_pack = true /\
  resolve_call_imp counter_pack (method "bump") (all_const counter_pack)
    = Some 0 /\
  counter_pack !! 0 = Some bump /\
  objects counter_store !! 1%positive
    = Some (existT (P := sample_type) Counter 5%Z) /\
  (exists r,
     ref_from_value counter_pack Counter 1%positive counter_store
       = Ok r counter_store /\
     ref_call counter_pack r (method "bump") [] counter_store =
     direct_call Counter bump "bump" 1%positive 5%Z [] counter_store) /\
  (exists o st1 p,
     object_imp_from_value counter_pack Counter 5%Z counter_store = Ok o st1 /\
     object_get_ptr o st1 = Ok (Some p) st1 /\
     object_call counter_pack false o (method "bump") [] st1 =
     direct_call Counter bump "bump" p 5%Z [] st1) /\
  (all_const counter_pack = true ->
   exists o st1 p,
     shared_from_value counter_pack Counter 5%Z counter_store = Ok o st1 /\
     shared_get_ptr o st1 = Ok (Some p) st1 /\
     shared_call counter_pack o (method "bump") [] st1 =
     direct_call Counter bump "bump" p 5%Z [] st1).
Proof.
  assert (H1 : static_assert_capacity counter_pack = true) by reflexivity.
  assert (H2 : resolve_call_imp counter_pack (method "bump")
                 (all_const counter_pack) = Some 0) by reflexivity.
  assert (H3 : counter_pack !! 0 = Some bump) by reflexivity.
  assert (H4 : objects counter_store !! 1%positive
               = Some (existT (P := sample_type) Counter 5%Z))
    by reflexivity.
  split; [exact H1|]. split; [exact H2|]. split; [exact H3|].
  split; [exact H4|].
  exact (handle_call_is_direct_call counter_pack Counter 5%Z "bump" [] 0 bump
           1%positive counter_store H1 H2 H3 H4).
Defined.

Lemma ref_from_ref_dispatch_witness :
  NoDup (sig_method <$> counter_pack) /\
  swapped_counter_pack ⊆+ counter_pack /\
  static_assert_capacity counter_pack = true /\
  length (permutation_ (ref_vt_ counter_ref)) = length counter_pack /\
  swapped_counter_pack !! 0 = Some peek /\
  exists r i,
    ref_from_poly swapped_counter_pack (ref_as_poly counter_pack counter_ref)
      counter_store = Ok r counter_store /\
    ref_t_ r = ref_t_ counter_ref /\
    (forall k s', swapped_counter_pack !! k = Some s' ->
       exists i', get_index counter_pack s' = Some i' /\
                  permutation_ (ref_vt_ r) !! k =
                  permutation_ (ref_vt_ counter_ref) !! i') /\
    counter_pack !! i = Some peek /\
    resolve_call_imp swapped_counter_pack (sig_method peek)
      (all_const swapped_counter_pack) = Some 0 /\
    resolve_call_imp counter_pack (sig_method peek) (all_const counter_pack)
      = Some i /\
    ref_call swapped_counter_pack r (sig_method peek) [] counter_store =
    ref_call counter_pack counter_ref (sig_method peek) [] counter_store.
Proof.
  assert (H1 : NoDup (sig_method <$> counter_pack))
    by (apply (bool_decide_unpack _); vm_compute; exact I).
  assert (H2 : swapped_counter_pack ⊆+ counter_pack)
    by (apply Permutation_submseteq, perm_swap).
  assert (H3 : static_assert_capacity counter_pack = true) by reflexivity.
  assert (H4 : length (permutation_ (ref_vt_ counter_ref))
               = length counter_pack) by reflexivity.
  assert (H5 : swapped_counter_pack !! 0 = Some peek) by reflexivity.
  repeat (split; [assumption|]).
  exact (ref_from_ref_dispatch counter_pack swapped_counter_pack counter_ref
           0 peek [] counter_store H1 H2 H3 H4 H5).
Defined.

Lemma shared_copy_shares_witness :
  shared_ptr_valid (shared_t_ circle_shared) shared_store /\
  shared_get_ptr circle_shared shared_store
    = Ok (Some 2%positive) shared_store /\
  exists o st',
    shared_copy circle_shared shared_store = Ok o st' /\
    shared_t_ o = shared_t_ circle_shared /\
    shared_vt_ o = shared_vt_ circle_shared /\
    shared_get_ptr o st' = Ok (Some 2%positive) st' /\
    shared_get_ptr circle_shared st' = Ok (Some 2%positive) st' /\
    objects st' = objects shared_store /\
    holders st' = holders shared_store /\
    next st' = next shared_store /\
    (shared_bool circle_shared = true ->
     owners (shared_t_ circle_shared) st'
     = S (owners (shared_t_ circle_shared) shared_store)).
Proof.
  assert (H1 : shared_ptr_valid (shared_t_ circle_shared) shared_store).
  { exists {| use_count := 1; block_deleter := destroy_complete |}.
    split; [reflexivity | simpl; lia]. }
  assert (H2 : shared_get_ptr circle_shared shared_store
               = Ok (Some 2%positive) shared_store) by reflexivity.
  split; [exact H1|]. split; [exact H2|].
  exact (shared_copy_shares circle_shared (Some 2%positive) shared_store H1 H2).
Defined.

Lemma object_imp_copy_is_deep_witness :
  table_for (denote := sample_type) Counter owner_pack
    (object_vt_ counter_owner) /\
  object_t_ counter_owner = Some 1%positive /\
  holders owner_store !! 1%positive = Some {| ptr := 2%positive |} /\
  objects owner_store !! 2%positive
    = Some (existT (P := sample_type) Counter 5%Z) /\
  fresh owner_store /\
  resolve_call_imp owner_pack clone true = Some 2 /\
  (exists o st' p',
     object_imp_copy owner_pack counter_owner owner_store = Ok o st' /\
     object_bool o = true /\
     object_vt_ o = object_vt_ counter_owner /\
     object_get_ptr o st' = Ok (Some p') st' /\
     object_get_ptr counter_owner st' = Ok (Some 2%positive) st' /\
     p' <> 2%positive /\
     objects st' !! p' = Some (existT (P := sample_type) Counter 5%Z) /\
     objects st' !! 2%positive
       = Some (existT (P := sample_type) Counter 5%Z) /\
     forall name on_const i s parameters,
       resolve_call_imp owner_pack (method name) on_const = Some i ->
       owner_pack !! i = Some s ->
       exists r st1 st2,
         object_call owner_pack on_const counter_owner (method name)
           parameters st' = Ok r st1 /\
         object_call owner_pack on_const o (method name) parameters st'
           = Ok r st2 /\
         objects st2 !! 2%positive
           = Some (existT (P := sample_type) Counter 5%Z) /\
         objects st2 !! p' =
           Some (existT (P := sample_type) Counter
                   (if sig_const s then 5%Z
                    else (poly_extend (T := sample_type Counter)
                            name 5%Z parameters).2))) /\
  (forall vt st0,
     object_imp_copy (denote := sample_type) owner_pack
       {| object_vt_ := vt; object_t_ := None |} st0
     = Ok {| object_vt_ := vt; object_t_ := None |} st0).
Proof.
  assert (H1 : table_for (denote := sample_type) Counter owner_pack
                 (object_vt_ counter_owner))
    by (apply table_for_from_type; reflexivity).
  assert (H2 : object_t_ counter_owner = Some 1%positive) by reflexivity.
  assert (H3 : holders owner_store !! 1%positive
               = Some {| ptr := 2%positive |}) by reflexivity.
  assert (H4 : objects owner_store !! 2%positive
               = Some (existT (P := sample_type) Counter 5%Z))
    by reflexivity.
  assert (H5 : fresh owner_store)
    by (apply fresh_allocate_holder, fresh_empty_store).
  assert (H6 : resolve_call_imp owner_pack clone true = Some 2)
    by reflexivity.
  repeat (split; [assumption|]).
  exact (object_imp_copy_is_deep owner_pack Counter 5%Z counter_owner
           1%positive 2%positive 2 owner_store H1 H2 H3 H4 H5 H6).
Defined.

(** ** Worked examples *)

(** The example of the specification: an owner built from a [Circle] draws
    7, and so does its copy, which has its own storage. *)
Example circle_draws_7 :
  match
    (o <- object_imp_from_value (object_pack [draw]) Circle tt ;;
     r <- object_call (object_pack [draw]) false o (method "draw") [] ;;
     o' <- object_imp_copy (object_pack [draw]) o ;;
     r' <- object_call (object_pack [draw]) false o' (method "draw") [] ;;
     p <- object_get_ptr o ;;
     p' <- object_get_ptr o' ;;
     ret (r, r', p, p')) (empty_store sample_type)
  with
  | Ok x _ => x = (RVal 7, RVal 7, Some 2%positive, Some 4%positive)
  | _ => False
  end.
Proof. vm_compute. reflexivity. Qed.

(** One tag declared with and without [const] names two methods: through a
    handle with a [void*] the call selects the one without [const], through
    a [const]-only view of the same object the other one. *)
Example lamp_const_overload :
  match
    (r <- ref_from_value [draw; draw_const] Lamp 1%positive ;;
     x <- ref_call [draw; draw_const] r (method "draw") [] ;;
     r' <- ref_from_poly [draw_const] (ref_as_poly [draw; draw_const] r) ;;
     x' <- ref_call [draw_const] r' (method "draw") [] ;;
     ret (x, x'))
      (assign_object 1%positive (existT (P := sample_type) Lamp tt)
         (empty_store sample_type))
  with
  | Ok x _ => x = (RVal 1, RVal 2)
  | _ => False
  end.
Proof. vm_compute. reflexivity. Qed.

(** Self-assignment of the owner of a [Counter]: rejected, whatever the
    assignment of the temporary would do. *)
Example self_assignment_rejected
    (assign_temporary :
       object_imp -> object_imp -> M sample_type (@object_imp sample)) :
  object_copy_assign owner_pack assign_temporary counter_owner counter_owner
    owner_store = IllFormed.
Proof. reflexivity. Qed.

(** A shared owner of a [Circle] viewed through the swapped pack: rejected. *)
Example swapped_shared_owner_rejected :
  shared_from_shared view_pack swapped_view_pack circle_shared shared_store
  = IllFormed.
Proof. reflexivity. Qed.

(** * Further properties of the table *)

Lemma slots_from_app (P : Signature -> bool) (l1 l2 : list Signature)
    (k : nat) :
  slots_from P k (l1 ++ l2) =
  slots_from P k l1 ++ slots_from P (k + length l1) l2.
Proof.
  revert k. induction l1 as [|x l1 IH]; intros k; simpl.
  - by rewrite Nat.add_0_r.
  - rewrite IH. replace (S k + length l1) with (k + S (length l1)) by lia.
    by destruct (P x).
Qed.

Lemma get_index_only (Signatures : list Signature) (s : Signature) (i j : nat) :
  get_index Signatures s = Some i -> Signatures !! j = Some s -> j = i.
Proof.
  intros Hg Hj. apply unique_candidate_Some in Hg.
  assert (Hin : j ∈ slots_from (fun s' => bool_decide (s' = s)) 0 Signatures).
  { apply slots_from_spec. exists j, s.
    repeat split; [done|]. by apply bool_decide_eq_true_2. }
  unfold slots in Hg. rewrite Hg in Hin. by apply list_elem_of_singleton in Hin.
Qed.

Lemma get_index_unique (Signatures : list Signature) (s : Signature) (i : nat) :
  Signatures !! i = Some s ->
  (forall j, Signatures !! j = Some s -> j = i) ->
  get_index Signatures s = Some i.
Proof.
  intros Hi Hu. unfold get_index, slots.
  rewrite (slots_from_unique _ _ s 0 i Hi); [done| |].
  - by apply bool_decide_eq_true_2.
  - intros j s' Hj Hs'. apply bool_decide_eq_true_1 in Hs' as ->. by apply Hu.
Qed.

(** X1: [get_index] finds a signature exactly when the pack declares it
    once, and then returns its position; a signature that is missing, or
    declared twice, is not found. *)
Theorem get_index_single_occurrence (Signatures : list Signature)
    (s : Signature) (i : nat) :
  get_index Signatures s = Some i <->
  Signatures !! i = Some s /\ forall j, Signatures !! j = Some s -> j = i.
Proof.
  split.
  - intros Hg. split; [by apply get_index_Some|].
    intros j Hj. by eapply get_index_only.
  - intros [Hi Hu]. by apply get_index_unique.
Qed.

Section Coverage.
Context {tycode : Type} `{EqDecision tycode}.
Context {denote : tycode -> Type} {impl : forall c, PolyExtend (denote c)}.

Local Abbreviation store := (store denote).
Local Abbreviation M := (M denote).

(** X2: a table is converted to a new pack exactly when the new pack passes
    the capacity check and each of its signatures is declared exactly once
    by the source's pack; a signature the source lacks, or declares twice,
    makes the conversion ill-formed. *)
Theorem vtable_imp_from_other_accepted
    (OtherSignatures Signatures : list Signature) (other : vtable_imp tycode) :
  is_Some (vtable_imp_from_other OtherSignatures Signatures other) <->
  length Signatures <= 255 /\
  forall s, s ∈ Signatures ->
    exists i, OtherSignatures !! i = Some s /\
              forall j, OtherSignatures !! j = Some s -> j = i.
Proof.
  unfold vtable_imp_from_other.
  destruct (static_assert_capacity Signatures) eqn:Hcap.
  - apply static_assert_capacity_spec in Hcap. split.
    + intros [vt Hvt]. split; [done|]. intros s Hs.
      destruct (mapM (get_index OtherSignatures) Signatures) as [indices|] eqn:Hm;
        [|discriminate].
      apply mapM_Some_1 in Hm. apply list_elem_of_lookup_1 in Hs as [k Hk].
      destruct (Forall2_lookup_l _ _ _ _ _ Hm Hk) as (i & _ & Hg).
      exists i. split; [by apply get_index_Some|].
      intros j Hj. by eapply get_index_only.
    + intros [_ Hall].
      assert (Hsome : is_Some (mapM (get_index OtherSignatures) Signatures)).
      { apply mapM_is_Some_2, Forall_forall. intros s Hs. simpl.
        destruct (Hall s Hs) as (i & Hi & Hu). exists i.
        by apply get_index_unique. }
      destruct Hsome as [indices ->]. simpl. eauto.
  - split.
    + intros [vt Hvt]. discriminate.
    + intros [Hle _]. apply static_assert_capacity_spec in Hle. congruence.
Qed.

Lemma mapM_get_index_self (Signatures : list Signature) :
  NoDup Signatures ->
  mapM (get_index Signatures) Signatures = Some (seq 0 (length Signatures)).
Proof.
  intros Hnd. apply mapM_Some_2, Forall2_same_length_lookup_2.
  - by rewrite length_seq.
  - intros i s j Hs Hj. apply lookup_seq in Hj as [-> _]. simpl.
    by apply get_index_NoDup.
Qed.

Lemma fmap_lookup_seq {A : Type} (l : list A) (d : A) :
  (fun i => default d (l !! i)) <$> seq 0 (length l) = l.
Proof.
  apply list_eq. intros i. rewrite list_lookup_fmap.
  destruct (decide (i < length l)) as [Hi | Hi].
  - rewrite lookup_seq_lt by done. simpl.
    destruct (lookup_lt_is_Some_2 l i Hi) as [x Hx]. by rewrite Hx.
  - rewrite lookup_seq_ge by lia. simpl. symmetry. apply lookup_ge_None. lia.
Qed.

Lemma vtable_imp_from_other_self (Signatures : list Signature)
    (vt : vtable_imp tycode) :
  NoDup Signatures -> static_assert_capacity Signatures = true ->
  length (permutation_ vt) = length Signatures ->
  vtable_imp_from_other Signatures Signatures vt = Some vt.
Proof.
  intros Hnd Hcap Hlen. unfold vtable_imp_from_other.
  rewrite Hcap, (mapM_get_index_self _ Hnd). simpl.
  rewrite <- Hlen, fmap_lookup_seq. by destruct vt.
Qed.

Lemma compose_indices (S0 S1 S2 : list Signature) (idx1 idx2 : list nat)
    (f : nat -> index_type) :
  Forall2 (fun x i => get_index S0 x = Some i) S1 idx1 ->
  Forall2 (fun x j => get_index S1 x = Some j) S2 idx2 ->
  exists idx3,
    Forall2 (fun x i => get_index S0 x = Some i) S2 idx3 /\
    (fun j => default 0%N ((f <$> idx1) !! j)) <$> idx2 = f <$> idx3.
Proof.
  intros H1 H2. induction H2 as [|x j S2 idx2 Hx _ IH].
  - exists []. split; [constructor | done].
  - destruct IH as (idx3 & H3 & Heq).
    apply get_index_Some in Hx.
    destruct (Forall2_lookup_l _ _ _ _ _ H1 Hx) as (i & Hi & Hg).
    exists (i :: idx3). split; [by constructor|].
    rewrite !fmap_cons, Heq, list_lookup_fmap, Hi. done.
Qed.

Lemma vtable_imp_from_other_compose (S0 S1 S2 : list Signature)
    (vt0 vt1 vt2 : vtable_imp tycode) :
  vtable_imp_from_other S0 S1 vt0 = Some vt1 ->
  vtable_imp_from_other S1 S2 vt1 = Some vt2 ->
  vtable_imp_from_other S0 S2 vt0 = Some vt2.
Proof.
  intros H1 H2.
  apply vtable_imp_from_other_Some in H1 as (idx1 & Hm1 & ->).
  assert (Hcap : static_assert_capacity S2 = true).
  { unfold vtable_imp_from_other in H2.
    by destruct (static_assert_capacity S2). }
  apply vtable_imp_from_other_Some in H2 as (idx2 & Hm2 & ->).
  apply mapM_Some_1 in Hm1. apply mapM_Some_1 in Hm2.
  destruct (compose_indices S0 S1 S2 idx1 idx2
              (fun i => default 0%N (permutation_ vt0 !! i)) Hm1 Hm2)
    as (idx3 & H3 & Heq).
  apply mapM_Some_2 in H3.
  unfold vtable_imp_from_other. rewrite Hcap, H3. simpl. by rewrite Heq.
Qed.

(** X3: converting a table to the pack it already has changes nothing: the
    result is the table itself. *)
Theorem vtable_imp_from_other_same_pack (Signatures : list Signature)
    (vt : vtable_imp tycode) :
  NoDup Signatures -> static_assert_capacity Signatures = true ->
  length (permutation_ vt) = length Signatures ->
  vtable_imp_from_other Signatures Signatures vt = Some vt.
Proof.
  intros Hnd Hcap Hlen. destruct vt as [vptr permutation]. simpl in Hlen.
  unfold vtable_imp_from_other. rewrite Hcap.
  rewrite (mapM_get_index_self _ Hnd). simpl.
  f_equal. f_equal. rewrite <- Hlen. apply fmap_lookup_seq.
Qed.

(** X4: conversions compose: converting a table to a second pack and the
    result to a third gives the table that converting directly to the third
    pack gives. *)
Theorem vtable_imp_from_other_chain (S0 S1 S2 : list Signature)
    (vt0 vt1 vt2 : vtable_imp tycode) :
  vtable_imp_from_other S0 S1 vt0 = Some vt1 ->
  vtable_imp_from_other S1 S2 vt1 = Some vt2 ->
  vtable_imp_from_other S0 S2 vt0 = Some vt2.
Proof.
  intros H1 H2.
  assert (Hcap : static_assert_capacity S2 = true).
  { unfold vtable_imp_from_other in H2.
    by destruct (static_assert_capacity S2). }
  apply vtable_imp_from_other_Some in H1 as (idx1 & Hm1 & ->).
  apply vtable_imp_from_other_Some in H2 as (idx2 & Hm2 & ->).
  apply mapM_Some_1 in Hm1. apply mapM_Some_1 in Hm2.
  destruct (compose_indices S0 S1 S2 idx1 idx2
              (fun i => default 0%N (permutation_ vt0 !! i)) Hm1 Hm2)
    as (idx3 & H3 & Heq).
  unfold vtable_imp_from_other.
  rewrite Hcap, (mapM_Some_2 _ _ _ H3). simpl. by rewrite Heq.
Qed.

(** X5: a reordering is undone by converting back: for a pack without
    repeated signatures and any reordering of it, both conversions are
    accepted and the round trip returns the original table, permutation
    included. *)
Theorem vtable_imp_from_other_round_trip
    (OtherSignatures Signatures : list Signature) (other : vtable_imp tycode) :
  NoDup OtherSignatures -> Signatures ≡ₚ OtherSignatures ->
  static_assert_capacity OtherSignatures = true ->
  length (permutation_ other) = length OtherSignatures ->
  exists vt,
    vtable_imp_from_other OtherSignatures Signatures other = Some vt /\
    vtable_imp_from_other Signatures OtherSignatures vt = Some other.
Proof.
  intros Hnd Hperm Hcap Hlen.
  destruct (vtable_imp_from_other_permutation OtherSignatures Signatures other
              Hnd (Permutation_submseteq _ _ Hperm) Hcap Hlen)
    as (vt & Hvt & _ & _).
  exists vt. split; [done|].
  assert (Hnd' : NoDup Signatures) by (by rewrite Hperm).
  assert (Hcap' : static_assert_capacity Signatures = true).
  { apply static_assert_capacity_spec. apply static_assert_capacity_spec in Hcap.
    by rewrite Hperm. }
  assert (Hlen' : length (permutation_ vt) = length Signatures).
  { apply vtable_imp_from_other_Some in Hvt as (idx & Hm & ->). simpl.
    rewrite length_fmap. symmetry. by eapply length_mapM. }
  symmetry in Hperm.
  destruct (vtable_imp_from_other_permutation Signatures OtherSignatures vt
              Hnd' (Permutation_submseteq _ _ Hperm) Hcap' Hlen')
    as (vt' & Hvt' & _ & _).
  rewrite Hvt'. f_equal.
  pose proof (vtable_imp_from_other_compose _ _ _ _ _ _ Hvt Hvt') as Hc.
  rewrite (vtable_imp_from_other_self _ other Hnd Hcap Hlen) in Hc.
  congruence.
Qed.

(** ** Const-correctness of a call *)

Lemma resolve_call_imp_const (Signatures : list Signature) (m : Method)
    (i : nat) (s : Signature) :
  resolve_call_imp Signatures m true = Some i -> Signatures !! i = Some s ->
  sig_const s = true.
Proof.
  unfold resolve_call_imp. intros Hr Hl.
  assert (Hs : exists s', Signatures !! i = Some s' /\
             (exact m true s' = true \/ viable m true s' = true)).
  { destruct (slots (exact m true) Signatures) as [|a l] eqn:He.
    - apply slots_selected in Hr as (s' & Hl' & Hv). eauto.
    - rewrite <- He in Hr. apply slots_selected in Hr as (s' & Hl' & Hv). eauto. }
  destruct Hs as (s' & Hl' & Hs). assert (s' = s) as -> by congruence.
  unfold exact, viable in Hs.
  destruct Hs as [Hs | Hs]; apply andb_true_iff in Hs as [_ Hs].
  - by apply bool_decide_eq_true_1 in Hs.
  - done.
Qed.

(** X6: through a [const void*] a call only ever selects a signature that is
    declared [const] (and carries the tag of the call): a stub that may
    change the object is never reached from a [const] handle. *)
Theorem const_pointer_selects_const (Signatures : list Signature) (m : Method)
    (i : nat) (s : Signature) :
  resolve_call_imp Signatures m true = Some i -> Signatures !! i = Some s ->
  sig_const s = true /\ sig_method s = m.
Proof.
  intros Hr Hl. split; [by eapply resolve_call_imp_const|].
  destruct (resolve_call_imp_Some _ _ _ _ Hr) as (s' & Hl' & Hm). congruence.
Qed.

(** X7: calling, through a [const void*], a method that the pack declares
    only without [const] is ill-formed: it is rejected when the call is
    compiled, whatever the table and the address. *)
Theorem const_call_of_mutating_method_rejected (Signatures : list Signature)
    (m : Method) (vt : vtable_imp tycode) (t : pointer)
    (parameters : list value) (st : store) :
  (forall s, s ∈ Signatures -> sig_method s = m -> sig_const s = false) ->
  vtable_call Signatures vt true m t parameters st = IllFormed.
Proof.
  intros Hall. unfold vtable_call, resolve_call_imp, slots.
  assert (Hnone : forall P, (forall s, P s = true ->
                     bool_decide (sig_method s = m) && sig_const s = true) ->
                   slots_from P 0 Signatures = []).
  { intros P HP. apply slots_from_none. intros s Hs.
    destruct (P s) eqn:HPs; [|done]. apply HP in HPs.
    apply andb_true_iff in HPs as [Hm Hc]. apply bool_decide_eq_true_1 in Hm.
    rewrite (Hall s Hs Hm) in Hc. discriminate. }
  rewrite (Hnone (exact m true)), (Hnone (viable m true)); [done | |].
  - intros s Hs. unfold viable in Hs. by destruct (sig_const s).
  - intros s Hs. unfold exact in Hs. apply andb_true_iff in Hs as [Hm Hc].
    apply bool_decide_eq_true_1 in Hc. by rewrite Hm, Hc.
Qed.

Lemma load_store (c : tycode) (t : pointer) (x : denote c) (st st' : store) :
  load c t st = Ok x st' -> st' = st.
Proof.
  unfold load. destruct t as [a|]; [|done].
  destruct (objects st !! a) as [d|]; [|done].
  destruct (static_cast c d); [|done]. by intros [= _ <-].
Qed.

(** X8: a call of a user method through a [const void*] returns a value and
    leaves the whole store as it was, for any table that serves a concrete
    type; in particular a call through a shared owner changes nothing. *)
Theorem const_call_leaves_store (c : tycode) (Signatures : list Signature)
    (vt : vtable_imp tycode) (name : string) (parameters : list value) :
  table_for (denote := denote) c Signatures vt ->
  (forall t st r st',
     vtable_call Signatures vt true (method name) t parameters st = Ok r st' ->
     st' = st /\ exists v, r = RVal v) /\
  (forall h st r st',
     shared_call Signatures {| shared_vt_ := vt; shared_t_ := h |}
       (method name) parameters st = Ok r st' ->
     st' = st /\ exists v, r = RVal v).
Proof.
  intros Htab.
  assert (Hcall : forall t st r st',
            vtable_call Signatures vt true (method name) t parameters st
              = Ok r st' -> st' = st /\ exists v, r = RVal v).
  { intros t st r st' Hc.
    destruct (resolve_call_imp Signatures (method name) true) as [i|] eqn:Hr.
    2:{ unfold vtable_call in Hc. by rewrite Hr in Hc. }
    destruct (resolve_call_imp_Some _ _ _ _ Hr) as (s & Hl & Hm).
    pose proof (resolve_call_imp_const _ _ _ _ Hr Hl) as Hconst.
    rewrite (vtable_call_table_for c _ _ _ _ i s) in Hc by done.
    unfold get_entry, bind in Hc.
    destruct (load c t st) as [x st1| |] eqn:Hload; [|done..].
    apply load_store in Hload as ->. rewrite Hm, Hconst in Hc.
    injection Hc as <- <-. eauto. }
  split; [exact Hcall|].
  intros h st r st' Hc. unfold shared_call, shared_get_ptr, bind in Hc.
  simpl in Hc. destruct h as [h|].
  - destruct (holders st !! h); [|done]. by eapply Hcall.
  - by eapply Hcall.
Qed.

(** X9: calling through a null address is undefined behaviour, never a
    reported error: for a table that serves a concrete type and a call that
    is well formed, the stub dereferences the null pointer; so it is for a
    call on an empty exclusive owner. *)
Theorem call_through_null_undefined (c : tycode) (Signatures : list Signature)
    (vt : vtable_imp tycode) (t_const : bool) (m : Method) (i : nat)
    (parameters : list value) (st : store) :
  table_for (denote := denote) c Signatures vt ->
  resolve_call_imp Signatures m t_const = Some i ->
  vtable_call Signatures vt t_const m None parameters st = Undefined /\
  object_call Signatures t_const {| object_vt_ := vt; object_t_ := None |}
    m parameters st = Undefined.
Proof.
  intros Htab Hr.
  destruct (resolve_call_imp_Some _ _ _ _ Hr) as (s & Hl & Hm).
  assert (Hv : vtable_call Signatures vt t_const m None parameters st
               = Undefined)
    by (by rewrite (vtable_call_table_for c _ _ _ _ i s)).
  split; [exact Hv|]. unfold object_call, object_get_ptr, bind. simpl.
  exact Hv.
Qed.

(** X10: dispatch survives any conversion: if a table serves a concrete
    type (built from it, or converted any number of times), a table
    converted from it to another pack still sends each call to the free
    function of the signature the call selects. *)
Theorem converted_table_dispatch (c : tycode)
    (OtherSignatures Signatures : list Signature)
    (other vt : vtable_imp tycode) (t_const : bool) (name : string) (j : nat)
    (s : Signature) (a : addr) (t : denote c) (parameters : list value)
    (st : store) :
  table_for (denote := denote) c OtherSignatures other ->
  vtable_imp_from_other OtherSignatures Signatures other = Some vt ->
  objects st !! a = Some (existT c t) ->
  resolve_call_imp Signatures (method name) t_const = Some j ->
  Signatures !! j = Some s ->
  table_for (denote := denote) c Signatures vt /\
  vtable_call Signatures vt t_const (method name) (Some a) parameters st =
  direct_call c s name a t parameters st.
Proof.
  intros Htab Hc Ha Hr Hl.
  pose proof (table_for_from_other c _ _ _ _ Hc Htab) as Htab'.
  split; [exact Htab'|].
  destruct (resolve_call_imp_Some _ _ _ _ Hr) as (s' & Hl' & Hm).
  assert (s' = s) as -> by congruence.
  rewrite (vtable_call_table_for c _ _ _ _ j s) by done.
  by apply get_entry_method.
Qed.

(** ** The pack of an owner *)

(** X11: appending [copyable] to a pack that does not use the tag [clone]
    makes [clone] callable, at the last slot, leaves every call of a user
    method selecting what it selected, and does not change whether all
    signatures are [const], which is what chooses the shape of the owner. *)
Theorem object_pack_dispatch (Signatures : list Signature) :
  (forall s, s ∈ Signatures -> sig_method s <> clone) ->
  object_pack Signatures !! length Signatures = Some copyable /\
  (forall t_const,
     resolve_call_imp (object_pack Signatures) clone t_const
     = Some (length Signatures)) /\
  (forall name t_const,
     resolve_call_imp (object_pack Signatures) (method name) t_const
     = resolve_call_imp Signatures (method name) t_const) /\
  all_const (object_pack Signatures) = all_const Signatures.
Proof.
  intros Hno. unfold object_pack. split; [|split; [|split]].
  - by apply list_lookup_middle.
  - intros t_const. unfold resolve_call_imp, slots.
    rewrite !slots_from_app.
    rewrite (slots_from_none (exact clone t_const) Signatures).
    2:{ intros s Hs. unfold exact.
        by rewrite (bool_decide_eq_false_2 _ (Hno s Hs)). }
    rewrite (slots_from_none (viable clone t_const) Signatures).
    2:{ intros s Hs. unfold viable.
        by rewrite (bool_decide_eq_false_2 _ (Hno s Hs)). }
    simpl. by destruct t_const.
  - intros name t_const. unfold resolve_call_imp, slots.
    rewrite !slots_from_app. simpl. by rewrite !app_nil_r.
  - unfold all_const. rewrite forallb_app. simpl. by rewrite andb_true_r.
Qed.

(** X12: an owner always carries [copyable] in its table, so the capacity
    check leaves room for 254 signatures of the user: an exclusive owner is
    built from a value exactly when its pack has at most 254 of them. *)
Theorem object_pack_capacity (Signatures : list Signature) (c : tycode)
    (v : denote c) (st : store) :
  (exists o st',
     object_imp_from_value (object_pack Signatures) c v st = Ok o st') <->
  length Signatures <= 254.
Proof.
  unfold object_imp_from_value, vtable_imp_from_type, bind.
  destruct (static_assert_capacity (object_pack Signatures)) eqn:Hcap; simpl.
  - apply static_assert_capacity_spec in Hcap. unfold object_pack in Hcap.
    rewrite length_app in Hcap. simpl in Hcap. split; [lia | eauto].
  - split.
    + intros (o & st' & Ho). discriminate.
    + intros Hle. assert (Hcap' : static_assert_capacity (object_pack Signatures) = true).
      { apply static_assert_capacity_spec. unfold object_pack.
        rewrite length_app. simpl. lia. }
      congruence.
Qed.

(** ** Handles built from handles *)

(** X13: a [ref] whose pack has a signature without [const] cannot be built
    from an exclusive owner: the constructor takes the owner by [const]
    reference, whose [get_ptr()] is a [const void*], and that does not
    initialise the [void*] of such a [ref]. *)
Theorem ref_from_owner_needs_const (OtherSignatures Signatures : list Signature)
    (o : object_imp) (st : store) :
  all_const Signatures = false ->
  ref_from_poly Signatures (object_as_poly OtherSignatures o) st = IllFormed.
Proof.
  intros Hall. unfold ref_from_poly, bind. simpl.
  destruct (vtable_imp_from_other OtherSignatures Signatures (object_vt_ o));
    simpl; [|done].
  by rewrite Hall.
Qed.

(** X14: a [ref] with a pack of [const] signatures built from a non-empty
    exclusive owner borrows the owner's value: it holds the address the
    owner reports, is not null, changes nothing in the store, and a call
    through it returns what the [const] free function returns on the held
    value. *)
Theorem ref_from_owner_borrows (c : tycode)
    (OtherSignatures Signatures : list Signature) (o : object_imp)
    (vt : vtable_imp tycode) (h p : addr) (v : denote c) (name : string)
    (j : nat) (parameters : list value) (st : store) :
  all_const Signatures = true ->
  vtable_imp_from_other OtherSignatures Signatures (object_vt_ o) = Some vt ->
  table_for c OtherSignatures (object_vt_ o) ->
  object_t_ o = Some h ->
  holders st !! h = Some {| ptr := p |} ->
  objects st !! p = Some (existT c v) ->
  resolve_call_imp Signatures (method name) true = Some j ->
  ref_from_poly Signatures (object_as_poly OtherSignatures o) st
    = Ok {| ref_vt_ := vt; ref_t_ := Some p |} st /\
  object_get_ptr o st = Ok (Some p) st /\
  ref_call Signatures {| ref_vt_ := vt; ref_t_ := Some p |} (method name)
    parameters st = Ok (RVal (poly_extend_const name v parameters)) st.
Proof.
  intros Hall Hvt Htab Ht Hh Ho Hr.
  assert (Hp : object_get_ptr o st = Ok (Some p) st)
    by (unfold object_get_ptr; by rewrite Ht, Hh).
  split; [|split; [exact Hp|]].
  - unfold ref_from_poly, bind. simpl. rewrite Hvt. simpl.
    by rewrite Hall, Hp.
  - destruct (resolve_call_imp_Some _ _ _ _ Hr) as (s & Hl & Hm).
    pose proof (resolve_call_imp_const _ _ _ _ Hr Hl) as Hconst.
    unfold ref_call. rewrite Hall. simpl.
    rewrite (vtable_call_table_for c _ _ _ _ j s);
      [| by eapply table_for_from_other | done..].
    rewrite (get_entry_method c s name p v) by done.
    unfold direct_call. by rewrite Hconst.
Qed.

Lemma clone_through_ref (c : tycode) (Signatures : list Signature) (r : ref)
    (a : addr) (v : denote c) (k : nat) (st : store) :
  ref_t_ r = Some a -> objects st !! a = Some (existT c v) ->
  table_for c Signatures (ref_vt_ r) ->
  resolve_call_imp Signatures clone (all_const Signatures) = Some k ->
  ref_call Signatures r clone [] st
  = Ok (RHolder (Some (next st))) (allocate_holder c v st).
Proof.
  intros Ht Ha Htab Hk.
  destruct (resolve_call_imp_Some _ _ _ _ Hk) as (sk & Hsk & Hmk).
  unfold ref_call. rewrite Ht.
  rewrite (vtable_call_table_for c _ _ _ _ k sk) by done.
  unfold get_entry, bind, load. by rewrite Ha, static_cast_existT, Hmk.
Qed.

(** X15: an exclusive owner built from a [ref] owns a copy: the value the
    [ref] points at is cloned into a new holder at a fresh address, the
    referenced object stays where and what it was, and the owner's table is
    the [ref]'s table converted, still serving the same concrete type. *)
Theorem object_imp_from_ref_clones (c : tycode)
    (OtherSignatures Signatures : list Signature) (r : ref)
    (vt : vtable_imp tycode) (a : addr) (v : denote c) (k : nat) (st : store) :
  ref_t_ r = Some a ->
  objects st !! a = Some (existT c v) ->
  table_for c OtherSignatures (ref_vt_ r) ->
  vtable_imp_from_other OtherSignatures Signatures (ref_vt_ r) = Some vt ->
  resolve_call_imp OtherSignatures clone (all_const OtherSignatures) = Some k ->
  fresh st ->
  object_imp_from_poly Signatures (ref_as_poly OtherSignatures r) st
    = Ok {| object_vt_ := vt; object_t_ := Some (next st) |}
         (allocate_holder c v st) /\
  table_for c Signatures vt /\
  a <> Pos.succ (next st) /\
  objects (allocate_holder c v st) !! a = Some (existT c v) /\
  objects (allocate_holder c v st) !! Pos.succ (next st) = Some (existT c v).
Proof.
  intros Ht Ha Htab Hvt Hk Hf.
  assert (Hne : a <> Pos.succ (next st)).
  { intros ->. destruct (Hf (Pos.succ (next st))) as [Hn _]; [lia|]. congruence. }
  split; [|split; [by eapply table_for_from_other|]].
  - unfold object_imp_from_poly, bind. simpl. rewrite Hvt. simpl.
    unfold ref_bool. rewrite Ht, bool_decide_eq_true_2 by done.
    by rewrite (clone_through_ref c _ r a v k st).
  - split; [done|]. simpl. rewrite lookup_insert_ne by done.
    by rewrite lookup_insert_eq.
Qed.

(** X16: a shared owner built from a [ref] through the constructor
    templated on [Poly] is a clone as well: it adopts a new holder with one
    owner, and since the adopted pointer is a [unique_ptr<holder>], its
    destruction returns the storage without running the destructor of the
    held value. *)
Theorem shared_from_ref_clones (c : tycode)
    (OtherSignatures Signatures : list Signature) (r : ref)
    (vt : vtable_imp tycode) (a : addr) (v : denote c) (k : nat) (st : store) :
  ref_t_ r = Some a ->
  objects st !! a = Some (existT c v) ->
  table_for c OtherSignatures (ref_vt_ r) ->
  vtable_imp_from_other OtherSignatures Signatures (ref_vt_ r) = Some vt ->
  resolve_call_imp OtherSignatures clone (all_const OtherSignatures) = Some k ->
  exists st1 st2,
    shared_from_poly Signatures (ref_as_poly OtherSignatures r) st
      = Ok {| shared_vt_ := vt; shared_t_ := Some (next st) |} st1 /\
    owners (Some (next st)) st1 = 1 /\
    objects st1 !! Pos.succ (next st) = Some (existT c v) /\
    shared_destroy {| shared_vt_ := vt; shared_t_ := Some (next st) |} st1
      = Ok tt st2 /\
    released st2 = next st :: released st /\
    destroyed st2 = destroyed st.
Proof.
  intros Ht Ha Htab Hvt Hk. eexists _, _.
  split.
  { unfold shared_from_poly, bind. simpl. rewrite Hvt. simpl.
    unfold ref_bool. rewrite Ht, bool_decide_eq_true_2 by done.
    rewrite (clone_through_ref c _ r a v k st) by done. reflexivity. }
  simpl. rewrite !lookup_insert_eq. split; [done|]. split; [done|].
  unfold shared_destroy, shared_ptr_destroy, delete_holder. simpl.
  rewrite !lookup_insert_eq. simpl. rewrite ?lookup_insert_eq. done.
Qed.

(** ** Lifetime of the held value *)

(** X17: moving an exclusive owner transfers the holder: the new handle
    reports the address the source reported, the source is left empty and
    its destruction does nothing, so destroying both returns the storage
    exactly once. *)
Theorem object_imp_move_transfers (o : object_imp) (h : addr) (hd : holder)
    (st : store) :
  object_t_ o = Some h ->
  holders st !! h = Some hd ->
  object_get_ptr (object_imp_move o).1 st = Ok (Some (ptr hd)) st /\
  object_get_ptr o st = Ok (Some (ptr hd)) st /\
  object_bool (object_imp_move o).2 = false /\
  object_get_ptr (object_imp_move o).2 st = Ok None st /\
  object_imp_destroy (object_imp_move o).2 st = Ok tt st /\
  exists st',
    (_ <- object_imp_destroy (object_imp_move o).1 ;;
     object_imp_destroy (object_imp_move o).2) st = Ok tt st' /\
    released st' = h :: released st /\
    holders st' !! h = None /\
    objects st' !! ptr hd = None.
Proof.
  intros Ht Hh. unfold object_imp_move, object_get_ptr, object_bool,
    object_imp_destroy, unique_ptr_destroy, delete_holder, bind. simpl.
  rewrite Ht, Hh. repeat split. eexists. split; [reflexivity|].
  simpl. by rewrite !lookup_delete_eq.
Qed.

(** X18: once an exclusive owner is destroyed its holder is gone: asking
    the stale handle for its pointer, making through it a call that is well
    formed, or destroying it a second time is undefined behaviour. *)
Theorem object_imp_use_after_destroy (Signatures : list Signature)
    (on_const : bool) (o : object_imp) (h : addr) (hd : holder) (m : Method)
    (i : nat) (parameters : list value) (st : store) :
  object_t_ o = Some h ->
  holders st !! h = Some hd ->
  resolve_call_imp Signatures m on_const = Some i ->
  exists st',
    object_imp_destroy o st = Ok tt st' /\
    released st' = h :: released st /\
    holders st' !! h = None /\
    object_get_ptr o st' = Undefined /\
    object_call Signatures on_const o m parameters st' = Undefined /\
    object_imp_destroy o st' = Undefined.
Proof.
  intros Ht Hh Hr. eexists.
  unfold object_imp_destroy, unique_ptr_destroy, delete_holder, object_call,
    object_get_ptr, bind.
  rewrite Ht, Hh. split; [reflexivity|]. simpl.
  by rewrite !lookup_delete_eq.
Qed.

(** X19: a [ref] does not keep the value alive: after the owner it was
    borrowed from is destroyed, a call through the [ref] is undefined
    behaviour. *)
Theorem ref_dangles_after_destroy (c : tycode) (Signatures : list Signature)
    (r : ref) (o : object_imp) (h : addr) (hd : holder) (m : Method) (i : nat)
    (parameters : list value) (st : store) :
  object_t_ o = Some h ->
  holders st !! h = Some hd ->
  ref_t_ r = Some (ptr hd) ->
  table_for c Signatures (ref_vt_ r) ->
  resolve_call_imp Signatures m (all_const Signatures) = Some i ->
  exists st',
    object_imp_destroy o st = Ok tt st' /\
    ref_call Signatures r m parameters st' = Undefined.
Proof.
  intros Ht Hh Hr Htab Hi.
  destruct (resolve_call_imp_Some _ _ _ _ Hi) as (s & Hl & Hm).
  eexists. unfold object_imp_destroy, unique_ptr_destroy, delete_holder.
  rewrite Ht, Hh. split; [reflexivity|].
  unfold ref_call. rewrite Hr.
  rewrite (vtable_call_table_for c _ _ _ _ i s) by done.
  unfold get_entry, bind, load. simpl. by rewrite lookup_delete_eq.
Qed.

(** X20: shared ownership is counted: after a copy the block counts two
    owners; destroying one of them changes nothing but the count, and the
    other still reports the address; destroying the last one returns the
    storage exactly once, and runs the destructor of the held value exactly
    when the holder was made by [make_shared]. *)
Theorem shared_last_owner_releases (o : shared_object_imp) (h : addr)
    (hd : holder) (d : deleter) (st : store) :
  shared_t_ o = Some h ->
  blocks st !! h = Some {| use_count := 1; block_deleter := d |} ->
  holders st !! h = Some hd ->
  exists o' st1 st2 st3,
    shared_copy o st = Ok o' st1 /\
    owners (Some h) st1 = 2 /\
    shared_destroy o st1 = Ok tt st2 /\
    owners (Some h) st2 = 1 /\
    objects st2 = objects st /\ holders st2 = holders st /\
    released st2 = released st /\ destroyed st2 = destroyed st /\
    shared_get_ptr o' st2 = Ok (Some (ptr hd)) st2 /\
    shared_destroy o' st2 = Ok tt st3 /\
    released st3 = h :: released st /\
    holders st3 !! h = None /\
    objects st3 !! ptr hd = None /\
    destroyed st3 =
      match d with
      | destroy_complete => ptr hd :: destroyed st
      | delete_as_holder => destroyed st
      end.
Proof.
  intros Ht Hb Hh.
  exists {| shared_vt_ := shared_vt_ o; shared_t_ := Some h |}.
  unfold shared_copy, shared_destroy, shared_ptr_copy, shared_ptr_destroy,
    shared_get_ptr, destroy_holder_imp, delete_holder, bind.
  rewrite Ht, Hb. simpl.
  destruct d; eexists _, _, _;
    (split; [reflexivity|]); simpl; rewrite !lookup_insert_eq; simpl;
    (split; [done|]); (split; [reflexivity|]); simpl;
    rewrite !lookup_insert_eq; simpl; rewrite Hh;
    (split; [done|]); (split; [done|]); (split; [done|]); (split; [done|]);
    (split; [done|]); (split; [done|]); (split; [reflexivity|]); simpl;
    by rewrite !lookup_delete_eq.
Qed.

(** X21: a call of a user method through a non-empty exclusive owner stays
    inside the held object: it returns, allocates and frees nothing, leaves
    every other object as it was, and the held object keeps its concrete
    type. *)
Theorem object_call_frame (c : tycode) (Signatures : list Signature)
    (on_const : bool) (o : object_imp) (h p : addr) (v : denote c)
    (name : string) (i : nat) (parameters : list value) (st : store) :
  table_for c Signatures (object_vt_ o) ->
  object_t_ o = Some h ->
  holders st !! h = Some {| ptr := p |} ->
  objects st !! p = Some (existT c v) ->
  resolve_call_imp Signatures (method name) on_const = Some i ->
  exists r st' v',
    object_call Signatures on_const o (method name) parameters st = Ok r st' /\
    holders st' = holders st /\ blocks st' = blocks st /\
    next st' = next st /\
    destroyed st' = destroyed st /\ released st' = released st /\
    objects st' !! p = Some (existT c v') /\
    forall a, a <> p -> objects st' !! a = objects st !! a.
Proof.
  intros Htab Ht Hh Ho Hr.
  destruct (resolve_call_imp_Some _ _ _ _ Hr) as (s & Hl & Hm).
  rewrite (object_call_table_for c _ o _ _ i s h p v) by done.
  unfold direct_call. destruct (sig_const s).
  - exists (RVal (poly_extend_const name v parameters)), st, v.
    repeat split; done.
  - eexists _, _, _. split; [reflexivity|]. simpl.
    repeat split; try done.
    + by rewrite lookup_insert_eq.
    + intros a Ha. by rewrite lookup_insert_ne.
Qed.

End Coverage.

(** * Instances of the further properties *)

Lemma table_for_direct_table (Signatures : list Signature) (c : sample) :
  static_assert_capacity Signatures = true ->
  table_for (denote := sample_type) c Signatures (direct_table Signatures c).
Proof.
  intros Hcap. apply table_for_from_type.
  unfold vtable_imp_from_type. by rewrite Hcap.
Qed.

Lemma fresh_counter_store : fresh counter_store.
Proof.
  intros a Ha. simpl in *. rewrite lookup_singleton_ne by lia.
  by rewrite lookup_empty.
Qed.

Lemma vtable_imp_from_other_same_pack_witness :
  NoDup counter_pack /\
  static_assert_capacity counter_pack = true /\
  length (permutation_ (direct_table counter_pack Counter))
    = length counter_pack /\
  vtable_imp_from_other counter_pack counter_pack
    (direct_table counter_pack Counter)
  = Some (direct_table counter_pack Counter).
Proof.
  assert (H1 : NoDup counter_pack)
    by (apply (bool_decide_unpack _); vm_compute; exact I).
  assert (H2 : static_assert_capacity counter_pack = true) by reflexivity.
  assert (H3 : length (permutation_ (direct_table counter_pack Counter))
               = length counter_pack) by reflexivity.
  repeat (split; [assumption|]).
  exact (vtable_imp_from_other_same_pack counter_pack
           (direct_table counter_pack Counter) H1 H2 H3).
Defined.

Lemma vtable_imp_from_other_chain_witness :
  vtable_imp_from_other owner_pack counter_pack
    (direct_table owner_pack Counter) = Some owner_as_counter_table /\
  vtable_imp_from_other counter_pack swapped_counter_pack
    owner_as_counter_table = Some owner_as_swapped_table /\
  vtable_imp_from_other owner_pack swapped_counter_pack
    (direct_table owner_pack Counter) = Some owner_as_swapped_table.
Proof.
  assert (H1 : vtable_imp_from_other owner_pack counter_pack
                 (direct_table owner_pack Counter)
               = Some owner_as_counter_table) by reflexivity.
  assert (H2 : vtable_imp_from_other counter_pack swapped_counter_pack
                 owner_as_counter_table = Some owner_as_swapped_table)
    by reflexivity.
  repeat (split; [assumption|]).
  exact (vtable_imp_from_other_chain owner_pack counter_pack
           swapped_counter_pack (direct_table owner_pack Counter)
           owner_as_counter_table owner_as_swapped_table H1 H2).
Defined.

Lemma vtable_imp_from_other_round_trip_witness :
  NoDup counter_pack /\ swapped_counter_pack ≡ₚ counter_pack /\
  static_assert_capacity counter_pack = true /\
  length (permutation_ (direct_table counter_pack Counter))
    = length counter_pack /\
  exists vt,
    vtable_imp_from_other counter_pack swapped_counter_pack
      (direct_table counter_pack Counter) = Some vt /\
    vtable_imp_from_other swapped_counter_pack counter_pack vt
    = Some (direct_table counter_pack Counter).
Proof.
  assert (H1 : NoDup counter_pack)
    by (apply (bool_decide_unpack _); vm_compute; exact I).
  assert (H2 : swapped_counter_pack ≡ₚ counter_pack) by apply perm_swap.
  assert (H3 : static_assert_capacity counter_pack = true) by reflexivity.
  assert (H4 : length (permutation_ (direct_table counter_pack Counter))
               = length counter_pack) by reflexivity.
  repeat (split; [assumption|]).
  exact (vtable_imp_from_other_round_trip counter_pack swapped_counter_pack
           (direct_table counter_pack Counter) H1 H2 H3 H4).
Defined.

Lemma const_pointer_selects_const_witness :
  resolve_call_imp owner_pack (method "peek") true = Some 1 /\
  owner_pack !! 1 = Some peek /\
  sig_const peek = true /\ sig_method peek = method "peek".
Proof.
  assert (H1 : resolve_call_imp owner_pack (method "peek") true = Some 1)
    by reflexivity.
  assert (H2 : owner_pack !! 1 = Some peek) by reflexivity.
  repeat (split; [assumption|]).
  exact (const_pointer_selects_const owner_pack (method "peek") 1 peek H1 H2).
Defined.

Lemma const_call_of_mutating_method_rejected_witness :
  (forall s, s ∈ counter_pack -> sig_method s = method "bump" ->
     sig_const s = false) /\
  vtable_call (denote := sample_type) counter_pack
    (direct_table counter_pack Counter) true (method "bump")
    (Some 1%positive) [] counter_store = IllFormed.
Proof.
  assert (H1 : forall s, s ∈ counter_pack -> sig_method s = method "bump" ->
                 sig_const s = false).
  { intros s Hs Hm. unfold counter_pack in Hs.
    apply elem_of_cons in Hs as [-> | Hs]; [reflexivity|].
    apply list_elem_of_singleton in Hs as ->. discriminate Hm. }
  split; [exact H1|].
  exact (const_call_of_mutating_method_rejected counter_pack (method "bump")
           (direct_table counter_pack Counter) (Some 1%positive) []
           counter_store H1).
Defined.

Lemma const_call_leaves_store_witness :
  table_for (denote := sample_type) Counter owner_pack
    (direct_table owner_pack Counter) /\
  (forall t st r st',
     vtable_call (denote := sample_type) owner_pack
       (direct_table owner_pack Counter) true (method "peek") t [] st
       = Ok r st' ->
     st' = st /\ exists v, r = RVal v) /\
  (forall h st r st',
     shared_call (denote := sample_type) owner_pack
       {| shared_vt_ := direct_table owner_pack Counter; shared_t_ := h |}
       (method "peek") [] st = Ok r st' ->
     st' = st /\ exists v, r = RVal v).
Proof.
  assert (H1 : table_for (denote := sample_type) Counter owner_pack
                 (direct_table owner_pack Counter))
    by (apply table_for_direct_table; reflexivity).
  split; [exact H1|].
  exact (const_call_leaves_store Counter owner_pack
           (direct_table owner_pack Counter) "peek" [] H1).
Defined.

Lemma call_through_null_undefined_witness :
  table_for (denote := sample_type) Counter owner_pack
    (direct_table owner_pack Counter) /\
  resolve_call_imp owner_pack (method "bump") false = Some 0 /\
  vtable_call (denote := sample_type) owner_pack
    (direct_table owner_pack Counter) false (method "bump") None []
    owner_store = Undefined /\
  object_call owner_pack false
    {| object_vt_ := direct_table owner_pack Counter; object_t_ := None |}
    (method "bump") [] owner_store = Undefined.
Proof.
  assert (H1 : table_for (denote := sample_type) Counter owner_pack
                 (direct_table owner_pack Counter))
    by (apply table_for_direct_table; reflexivity).
  assert (H2 : resolve_call_imp owner_pack (method "bump") false = Some 0)
    by reflexivity.
  repeat (split; [assumption|]).
  exact (call_through_null_undefined Counter owner_pack
           (direct_table owner_pack Counter) false (method "bump") 0 []
           owner_store H1 H2).
Defined.

Lemma converted_table_dispatch_witness :
  table_for (denote := sample_type) Counter counter_pack
    (direct_table counter_pack Counter) /\
  vtable_imp_from_other counter_pack swapped_counter_pack
    (direct_table counter_pack Counter) = Some swapped_counter_table /\
  objects counter_store !! 1%positive
    = Some (existT (P := sample_type) Counter 5%Z) /\
  resolve_call_imp swapped_counter_pack (method "peek") false = Some 0 /\
  swapped_counter_pack !! 0 = Some peek /\
  table_for (denote := sample_type) Counter swapped_counter_pack
    swapped_counter_table /\
  vtable_call swapped_counter_pack swapped_counter_table false (method "peek")
    (Some 1%positive) [] counter_store =
  direct_call Counter peek "peek" 1%positive 5%Z [] counter_store.
Proof.
  assert (H1 : table_for (denote := sample_type) Counter counter_pack
                 (direct_table counter_pack Counter))
    by (apply table_for_direct_table; reflexivity).
  assert (H2 : vtable_imp_from_other counter_pack swapped_counter_pack
                 (direct_table counter_pack Counter)
               = Some swapped_counter_table) by reflexivity.
  assert (H3 : objects counter_store !! 1%positive
               = Some (existT (P := sample_type) Counter 5%Z))
    by reflexivity.
  assert (H4 : resolve_call_imp swapped_counter_pack (method "peek") false
               = Some 0) by reflexivity.
  assert (H5 : swapped_counter_pack !! 0 = Some peek) by reflexivity.
  repeat (split; [assumption|]).
  exact (converted_table_dispatch Counter counter_pack swapped_counter_pack
           (direct_table counter_pack Counter) swapped_counter_table false
           "peek" 0 peek 1%positive 5%Z [] counter_store H1 H2 H3 H4 H5).
Defined.

Lemma object_pack_dispatch_witness :
  (forall s, s ∈ counter_pack -> sig_method s <> clone) /\
  object_pack counter_pack !! length counter_pack = Some copyable /\
  (forall t_const,
     resolve_call_imp (object_pack counter_pack) clone t_const
     = Some (length counter_pack)) /\
  (forall name t_const,
     resolve_call_imp (object_pack counter_pack) (method name) t_const
     = resolve_call_imp counter_pack (method name) t_const) /\
  all_const (object_pack counter_pack) = all_const counter_pack.
Proof.
  assert (H1 : forall s, s ∈ counter_pack -> sig_method s <> clone).
  { intros s Hs. unfold counter_pack in Hs.
    apply elem_of_cons in Hs as [-> | Hs]; [discriminate|].
    apply list_elem_of_singleton in Hs as ->. discriminate. }
  split; [exact H1|].
  exact (object_pack_dispatch counter_pack H1).
Defined.

Lemma ref_from_owner_needs_const_witness :
  all_const counter_pack = false /\
  ref_from_poly counter_pack (object_as_poly owner_pack counter_owner)
    owner_store = IllFormed.
Proof.
  assert (H1 : all_const counter_pack = false) by reflexivity.
  split; [exact H1|].
  exact (ref_from_owner_needs_const owner_pack counter_pack counter_owner
           owner_store H1).
Defined.

Lemma ref_from_owner_borrows_witness :
  all_const [peek] = true /\
  vtable_imp_from_other owner_pack [peek] (object_vt_ counter_owner)
    = Some peek_table /\
  table_for (denote := sample_type) Counter owner_pack
    (object_vt_ counter_owner) /\
  object_t_ counter_owner = Some 1%positive /\
  holders owner_store !! 1%positive = Some {| ptr := 2%positive |} /\
  objects owner_store !! 2%positive
    = Some (existT (P := sample_type) Counter 5%Z) /\
  resolve_call_imp [peek] (method "peek") true = Some 0 /\
  ref_from_poly [peek] (object_as_poly owner_pack counter_owner) owner_store
    = Ok peek_ref owner_store /\
  object_get_ptr counter_owner owner_store
    = Ok (Some 2%positive) owner_store /\
  ref_call [peek] peek_ref (method "peek") [] owner_store
    = Ok (RVal (poly_extend_const (T := sample_type Counter) "peek" 5%Z []))
         owner_store.
Proof.
  assert (H1 : all_const [peek] = true) by reflexivity.
  assert (H2 : vtable_imp_from_other owner_pack [peek]
                 (object_vt_ counter_owner) = Some peek_table) by reflexivity.
  assert (H3 : table_for (denote := sample_type) Counter owner_pack
                 (object_vt_ counter_owner))
    by (apply table_for_direct_table; reflexivity).
  assert (H4 : object_t_ counter_owner = Some 1%positive) by reflexivity.
  assert (H5 : holders owner_store !! 1%positive
               = Some {| ptr := 2%positive |}) by reflexivity.
  assert (H6 : objects owner_store !! 2%positive
               = Some (existT (P := sample_type) Counter 5%Z))
    by reflexivity.
  assert (H7 : resolve_call_imp [peek] (method "peek") true = Some 0)
    by reflexivity.
  repeat (split; [assumption|]).
  exact (ref_from_owner_borrows Counter owner_pack [peek] counter_owner
           peek_table 1%positive 2%positive 5%Z "peek" 0 [] owner_store
           H1 H2 H3 H4 H5 H6 H7).
Defined.

Lemma object_imp_from_ref_clones_witness :
  ref_t_ cloning_ref = Some 1%positive /\
  objects counter_store !! 1%positive
    = Some (existT (P := sample_type) Counter 5%Z) /\
  table_for (denote := sample_type) Counter owner_pack (ref_vt_ cloning_ref) /\
  vtable_imp_from_other owner_pack owner_pack (ref_vt_ cloning_ref)
    = Some (direct_table owner_pack Counter) /\
  resolve_call_imp owner_pack clone (all_const owner_pack) = Some 2 /\
  fresh counter_store /\
  object_imp_from_poly owner_pack (ref_as_poly owner_pack cloning_ref)
    counter_store
    = Ok {| object_vt_ := direct_table owner_pack Counter;
            object_t_ := Some (next counter_store) |}
         (allocate_holder (denote := sample_type) Counter 5%Z counter_store) /\
  table_for (denote := sample_type) Counter owner_pack
    (direct_table owner_pack Counter) /\
  1%positive <> Pos.succ (next counter_store) /\
  objects (allocate_holder (denote := sample_type) Counter 5%Z counter_store)
    !! 1%positive = Some (existT (P := sample_type) Counter 5%Z) /\
  objects (allocate_holder (denote := sample_type) Counter 5%Z counter_store)
    !! Pos.succ (next counter_store)
    = Some (existT (P := sample_type) Counter 5%Z).
Proof.
  assert (H1 : ref_t_ cloning_ref = Some 1%positive) by reflexivity.
  assert (H2 : objects counter_store !! 1%positive
               = Some (existT (P := sample_type) Counter 5%Z))
    by reflexivity.
  assert (H3 : table_for (denote := sample_type) Counter owner_pack
                 (ref_vt_ cloning_ref))
    by (apply table_for_direct_table; reflexivity).
  assert (H4 : vtable_imp_from_other owner_pack owner_pack
                 (ref_vt_ cloning_ref)
               = Some (direct_table owner_pack Counter)) by reflexivity.
  assert (H5 : resolve_call_imp owner_pack clone (all_const owner_pack)
               = Some 2) by reflexivity.
  assert (H6 : fresh counter_store) by exact fresh_counter_store.
  repeat (split; [assumption|]).
  exact (object_imp_from_ref_clones Counter owner_pack owner_pack cloning_ref
           (direct_table owner_pack Counter) 1%positive 5%Z 2 counter_store
           H1 H2 H3 H4 H5 H6).
Defined.

Lemma shared_from_ref_clones_witness :
  ref_t_ cloning_ref = Some 1%positive /\
  objects counter_store !! 1%positive
    = Some (existT (P := sample_type) Counter 5%Z) /\
  table_for (denote := sample_type) Counter owner_pack (ref_vt_ cloning_ref) /\
  vtable_imp_from_other owner_pack [peek] (ref_vt_ cloning_ref)
    = Some peek_table /\
  resolve_call_imp owner_pack clone (all_const owner_pack) = Some 2 /\
  exists st1 st2,
    shared_from_poly [peek] (ref_as_poly owner_pack cloning_ref) counter_store
      = Ok {| shared_vt_ := peek_table;
              shared_t_ := Some (next counter_store) |} st1 /\
    owners (Some (next counter_store)) st1 = 1 /\
    objects st1 !! Pos.succ (next counter_store)
      = Some (existT (P := sample_type) Counter 5%Z) /\
    shared_destroy {| shared_vt_ := peek_table;
                      shared_t_ := Some (next counter_store) |} st1
      = Ok tt st2 /\
    released st2 = next counter_store :: released counter_store /\
    destroyed st2 = destroyed counter_store.
Proof.
  assert (H1 : ref_t_ cloning_ref = Some 1%positive) by reflexivity.
  assert (H2 : objects counter_store !! 1%positive
               = Some (existT (P := sample_type) Counter 5%Z))
    by reflexivity.
  assert (H3 : table_for (denote := sample_type) Counter owner_pack
                 (ref_vt_ cloning_ref))
    by (apply table_for_direct_table; reflexivity).
  assert (H4 : vtable_imp_from_other owner_pack [peek] (ref_vt_ cloning_ref)
               = Some peek_table) by reflexivity.
  assert (H5 : resolve_call_imp owner_pack clone (all_const owner_pack)
               = Some 2) by reflexivity.
  repeat (split; [assumption|]).
  exact (shared_from_ref_clones Counter owner_pack [peek] cloning_ref
           peek_table 1%positive 5%Z 2 counter_store H1 H2 H3 H4 H5).
Defined.

Lemma object_imp_move_transfers_witness :
  object_t_ counter_owner = Some 1%positive /\
  holders owner_store !! 1%positive = Some {| ptr := 2%positive |} /\
  object_get_ptr (object_imp_move counter_owner).1 owner_store
    = Ok (Some 2%positive) owner_store /\
  object_get_ptr counter_owner owner_store
    = Ok (Some 2%positive) owner_store /\
  object_bool (object_imp_move counter_owner).2 = false /\
  object_get_ptr (object_imp_move counter_owner).2 owner_store
    = Ok None owner_store /\
  object_imp_destroy (object_imp_move counter_owner).2 owner_store
    = Ok tt owner_store /\
  exists st',
    (_ <- object_imp_destroy (object_imp_move counter_owner).1 ;;
     object_imp_destroy (object_imp_move counter_owner).2) owner_store
      = Ok tt st' /\
    released st' = 1%positive :: released owner_store /\
    holders st' !! 1%positive = None /\
    objects st' !! 2%positive = None.
Proof.
  assert (H1 : object_t_ counter_owner = Some 1%positive) by reflexivity.
  assert (H2 : holders owner_store !! 1%positive
               = Some {| ptr := 2%positive |}) by reflexivity.
  repeat (split; [assumption|]).
  exact (object_imp_move_transfers counter_owner 1%positive
           {| ptr := 2%positive |} owner_store H1 H2).
Defined.

Lemma object_imp_use_after_destroy_witness :
  object_t_ counter_owner = Some 1%positive /\
  holders owner_store !! 1%positive = Some {| ptr := 2%positive |} /\
  resolve_call_imp owner_pack (method "bump") false = Some 0 /\
  exists st',
    object_imp_destroy counter_owner owner_store = Ok tt st' /\
    released st' = 1%positive :: released owner_store /\
    holders st' !! 1%positive = None /\
    object_get_ptr counter_owner st' = Undefined /\
    object_call owner_pack false counter_owner (method "bump") [] st'
      = Undefined /\
    object_imp_destroy counter_owner st' = Undefined.
Proof.
  assert (H1 : object_t_ counter_owner = Some 1%positive) by reflexivity.
  assert (H2 : holders owner_store !! 1%positive
               = Some {| ptr := 2%positive |}) by reflexivity.
  assert (H3 : resolve_call_imp owner_pack (method "bump") false = Some 0)
    by reflexivity.
  repeat (split; [assumption|]).
  exact (object_imp_use_after_destroy owner_pack false counter_owner
           1%positive {| ptr := 2%positive |} (method "bump") 0 []
           owner_store H1 H2 H3).
Defined.

Lemma ref_dangles_after_destroy_witness :
  object_t_ counter_owner = Some 1%positive /\
  holders owner_store !! 1%positive = Some {| ptr := 2%positive |} /\
  ref_t_ peek_ref = Some 2%positive /\
  table_for (denote := sample_type) Counter [peek] (ref_vt_ peek_ref) /\
  resolve_call_imp [peek] (method "peek") (all_const [peek]) = Some 0 /\
  exists st',
    object_imp_destroy counter_owner owner_store = Ok tt st' /\
    ref_call [peek] peek_ref (method "peek") [] st' = Undefined.
Proof.
  assert (H1 : object_t_ counter_owner = Some 1%positive) by reflexivity.
  assert (H2 : holders owner_store !! 1%positive
               = Some {| ptr := 2%positive |}) by reflexivity.
  assert (H3 : ref_t_ peek_ref = Some 2%positive) by reflexivity.
  assert (H4 : table_for (denote := sample_type) Counter [peek]
                 (ref_vt_ peek_ref)).
  { apply (table_for_from_other Counter owner_pack [peek]
             (direct_table owner_pack Counter)); [reflexivity|].
    apply table_for_direct_table. reflexivity. }
  assert (H5 : resolve_call_imp [peek] (method "peek") (all_const [peek])
               = Some 0) by reflexivity.
  repeat (split; [assumption|]).
  exact (ref_dangles_after_destroy Counter [peek] peek_ref counter_owner
           1%positive {| ptr := 2%positive |} (method "peek") 0 [] owner_store
           H1 H2 H3 H4 H5).
Defined.

Lemma shared_last_owner_releases_witness :
  shared_t_ circle_shared = Some 1%positive /\
  blocks shared_store !! 1%positive
    = Some {| use_count := 1; block_deleter := destroy_complete |} /\
  holders shared_store !! 1%positive = Some {| ptr := 2%positive |} /\
  exists o' st1 st2 st3,
    shared_copy circle_shared shared_store = Ok o' st1 /\
    owners (Some 1%positive) st1 = 2 /\
    shared_destroy circle_shared st1 = Ok tt st2 /\
    owners (Some 1%positive) st2 = 1 /\
    objects st2 = objects shared_store /\
    holders st2 = holders shared_store /\
    released st2 = released shared_store /\
    destroyed st2 = destroyed shared_store /\
    shared_get_ptr o' st2 = Ok (Some 2%positive) st2 /\
    shared_destroy o' st2 = Ok tt st3 /\
    released st3 = 1%positive :: released shared_store /\
    holders st3 !! 1%positive = None /\
    objects st3 !! 2%positive = None /\
    destroyed st3 = 2%positive :: destroyed shared_store.
Proof.
  assert (H1 : shared_t_ circle_shared = Some 1%positive) by reflexivity.
  assert (H2 : blocks shared_store !! 1%positive
               = Some {| use_count := 1; block_deleter := destroy_complete |})
    by reflexivity.
  assert (H3 : holders shared_store !! 1%positive
               = Some {| ptr := 2%positive |}) by reflexivity.
  repeat (split; [assumption|]).
  exact (shared_last_owner_releases circle_shared 1%positive
           {| ptr := 2%positive |} destroy_complete shared_store H1 H2 H3).
Defined.

Lemma object_call_frame_witness :
  table_for (denote := sample_type) Counter owner_pack
    (object_vt_ counter_owner) /\
  object_t_ counter_owner = Some 1%positive /\
  holders owner_store !! 1%positive = Some {| ptr := 2%positive |} /\
  objects owner_store !! 2%positive
    = Some (existT (P := sample_type) Counter 5%Z) /\
  resolve_call_imp owner_pack (method "bump") false = Some 0 /\
  exists r st' v',
    object_call owner_pack false counter_owner (method "bump") [] owner_store
      = Ok r st' /\
    holders st' = holders owner_store /\ blocks st' = blocks owner_store /\
    next st' = next owner_store /\
    destroyed st' = destroyed owner_store /\
    released st' = released owner_store /\
    objects st' !! 2%positive = Some (existT (P := sample_type) Counter v') /\
    forall a, a <> 2%positive -> objects st' !! a = objects owner_store !! a.
Proof.
  assert (H1 : table_for (denote := sample_type) Counter owner_pack
                 (object_vt_ counter_owner))
    by (apply table_for_direct_table; reflexivity).
  assert (H2 : object_t_ counter_owner = Some 1%positive) by reflexivity.
  assert (H3 : holders owner_store !! 1%positive
               = Some {| ptr := 2%positive |}) by reflexivity.
  assert (H4 : objects owner_store !! 2%positive
               = Some (existT (P := sample_type) Counter 5%Z))
    by reflexivity.
  assert (H5 : resolve_call_imp owner_pack (method "bump") false = Some 0)
    by reflexivity.
  repeat (split; [assumption|]).
  exact (object_call_frame Counter owner_pack false counter_owner 1%positive
           2%positive 5%Z "bump" 0 [] owner_store H1 H2 H3 H4 H5).
Defined.

(** * The conversion of a [ref] and [const] overloads *)


